(** * Bayesian-persuasion simulator: the evaluator, the baseline schemes
    and the scheme validator, embedded from the Python sources.

    Numbers are Python floats, that is IEEE-754 binary64 values: they are
    modelled by Rocq's primitive floats, so every sum, product, quotient and
    comparison below rounds and compares as the interpreter does.  The
    integer literals of the scenarios (1, -1, 0, 10) and the default [0] of
    [dict.get] are the floats of the same value: Python converts an integer
    operand of a mixed operation before it computes, and the one product of
    two integers, the default 0 times an integer utility, is a zero that is
    added to a running sum, which its sign cannot change (see the section on
    zeros).  Float arithmetic raises nothing here: the only division is
    guarded by the test of its divisor against zero.

    Python dictionaries keep their insertion order; they are modelled as
    association lists.  A missing key raises [KeyError], the only exception
    of these functions on dictionaries of numbers. *)

From Stdlib Require Import Floats ZArith List String Bool Permutation Lia.
Import ListNotations.

Set Implicit Arguments.
Set Warnings "-inexact-float".

Local Open Scope string_scope.
Local Open Scope list_scope.
Local Open Scope float_scope.

(** ** Exceptions *)

Inductive exn : Type :=
| KeyError.

Inductive result (A : Type) : Type :=
| Ok (a : A)
| Raise (e : exn).

Arguments Ok {A} a.
Arguments Raise {A} e.

Definition bind {A B : Type} (r : result A) (k : A -> result B) : result B :=
  match r with
  | Ok a => k a
  | Raise e => Raise e
  end.

Notation "x <- r ;; k" := (bind r (fun x => k))
  (at level 61, r at next level, right associativity).
Notation "' p <- r ;; k" := (bind r (fun p => k))
  (at level 61, p pattern, r at next level, right associativity).

(** A [for] loop whose body may raise: the state is threaded from left to
    right and the first exception leaves the loop. *)
Fixpoint for_each {A S : Type} (xs : list A) (body : S -> A -> result S)
  (s : S) : result S :=
  match xs with
  | [] => Ok s
  | x :: xs' => s' <- body s x ;; for_each xs' body s'
  end.

(** ** Dictionaries *)

Definition key := string.

Module Dict.

Definition dict (V : Type) := list (key * V).

Section Ops.
Variable V : Type.

    (** [d.get(k)] with no default: [None] when [k] is absent. *)
Fixpoint get (d : dict V) (k : key) : option V :=
      match d with
      | [] => None
      | (k', v) :: d' => if String.eqb k' k then Some v else get d' k
      end.

    (** [d.get(k, dflt)] *)
Definition get_default (d : dict V) (k : key) (dflt : V) : V :=
      match get d k with
      | Some v => v
      | None => dflt
      end.

    (** [d[k]] *)
Definition getitem (d : dict V) (k : key) : result V :=
      match get d k with
      | Some v => Ok v
      | None => Raise KeyError
      end.

    (** [d[k] = v]: an existing key keeps its position, a new one goes
        last. *)
Fixpoint setitem (d : dict V) (k : key) (v : V) : dict V :=
      match d with
      | [] => [(k, v)]
      | (k', v') :: d' =>
          if String.eqb k' k then (k', v) :: d' else (k', v') :: setitem d' k v
      end.

Definition keys (d : dict V) : list key := map fst d.
Definition values (d : dict V) : list V := map snd d.

End Ops.

End Dict.

Import Dict.

(** [k in xs] for a list or a set of strings. *)
Definition mem (k : key) (xs : list key) : bool :=
  existsb (String.eqb k) xs.

(** [s.add(k)] on a set kept as a duplicate-free list. *)
Definition set_add (s : list key) (k : key) : list key :=
  if mem k s then s else s ++ [k].

(** [s.update(ks)] *)
Definition set_update (s : list key) (ks : list key) : list key :=
  fold_left set_add ks s.

(** [set(xs) == set(ys)] *)
Definition set_eqb (xs ys : list key) : bool :=
  forallb (fun x => mem x ys) xs && forallb (fun y => mem y xs) ys.

(** ** simulator.py *)

Definition scheme := dict (dict float).

Record BayesianGameSimulator : Type := {
  states : list key;
  actions : list key;
  prior : dict float;
  u_s : dict (dict float);
  u_r : dict (dict float)
}.

Section Simulator.

Variable self : BayesianGameSimulator.

  (** First loop of [_calculate_posterior_belief]: [P(signal)]. *)
Definition prob_signal_loop (signal : key) (signaling_scheme : scheme)
    : result float :=
    for_each (states self)
      (fun prob_signal state =>
         row <- getitem signaling_scheme state ;;
         p <- getitem (prior self) state ;;
         Ok (prob_signal + get_default row signal 0 * p))
      0.

  (** Second loop of [_calculate_posterior_belief]: Bayes' rule. *)
Definition posterior_loop (signal : key) (signaling_scheme : scheme)
    (prob_signal : float) : result (dict float) :=
    for_each (states self)
      (fun posterior_belief state =>
         row <- getitem signaling_scheme state ;;
         let prob_signal_given_state := get_default row signal 0 in
         prob_state <- getitem (prior self) state ;;
         Ok (setitem posterior_belief state
               (prob_signal_given_state * prob_state / prob_signal)))
      [].

Definition _calculate_posterior_belief (signal : key)
    (signaling_scheme : scheme) : result (dict float * float) :=
    prob_signal <- prob_signal_loop signal signaling_scheme ;;
    if prob_signal =? 0 then Ok (prior self, 0)
    else
      posterior_belief <- posterior_loop signal signaling_scheme prob_signal ;;
      Ok (posterior_belief, prob_signal).

  (** Inner loop of [_get_receiver_optimal_action] for one action. *)
Definition expected_utility_loop (posterior_belief : dict float)
    (action : key) : result float :=
    for_each (states self)
      (fun expected_utility state =>
         urow <- getitem (u_r self) action ;;
         u <- getitem urow state ;;
         p <- getitem posterior_belief state ;;
         Ok (expected_utility + u * p))
      0.

  (** One turn of the loop over the actions: the pair is
      [(max_expected_utility, optimal_action)]. *)
Definition receiver_step (posterior_belief : dict float)
    (st : float * option key) (action : key) : result (float * option key) :=
    expected_utility <- expected_utility_loop posterior_belief action ;;
    if fst st <? expected_utility
    then Ok (expected_utility, Some action)
    else Ok st.

  (** [optimal_action] starts as [None] and is returned as it stands. *)
Definition _get_receiver_optimal_action (posterior_belief : dict float)
    : result (option key) :=
    st <- for_each (actions self) (receiver_step posterior_belief)
            (neg_infinity, None) ;;
    Ok (snd st).

  (** Step 1 of [calculate_sender_expected_utility]: the set of signals. *)
Definition signal_set (signaling_scheme : scheme) : list key :=
    fold_left (fun signals state_signals => set_update signals (keys state_signals))
      (values signaling_scheme) [].

  (** [u_s[action_taken]], where [action_taken] may be [None]: no table has
      the key [None]. *)
Definition getitem_action (V : Type) (d : dict V) (a : option key)
    : result V :=
    match a with
    | Some k => getitem d k
    | None => Raise KeyError
    end.

  (** Step 2: one best response and one marginal per signal. *)
Definition best_response_loop (signals : list key)
    (signaling_scheme : scheme)
    : result (dict (option key) * dict float) :=
    for_each signals
      (fun '(optimal_action_for_signal, prob_of_signal) signal =>
         '(posterior_belief, prob_m) <-
             _calculate_posterior_belief signal signaling_scheme ;;
         a <- _get_receiver_optimal_action posterior_belief ;;
         Ok (setitem optimal_action_for_signal signal a,
             setitem prob_of_signal signal prob_m))
      ([], []).

  (** Step 3, inner loop: the sender's utility in one state. *)
Definition utility_for_state_loop (signals : list key)
    (signaling_scheme : scheme)
    (optimal_action_for_signal : dict (option key)) (state : key)
    : result float :=
    for_each signals
      (fun utility_for_state signal =>
         row <- getitem signaling_scheme state ;;
         let prob_signal_given_state := get_default row signal 0 in
         action_taken <- getitem optimal_action_for_signal signal ;;
         urow <- getitem_action (u_s self) action_taken ;;
         sender_utility <- getitem urow state ;;
         Ok (utility_for_state + prob_signal_given_state * sender_utility))
      0.

  (** Step 3, outer loop. *)
Definition total_loop (signals : list key) (signaling_scheme : scheme)
    (optimal_action_for_signal : dict (option key)) : result float :=
    for_each (states self)
      (fun total_expected_utility state =>
         utility_for_state <-
           utility_for_state_loop signals signaling_scheme
             optimal_action_for_signal state ;;
         p <- getitem (prior self) state ;;
         Ok (total_expected_utility + p * utility_for_state))
      0.

  (** Steps 2 and 3, for a given iteration order [signals] of the signal set.
      Python iterates a set of strings in hash order, which is not fixed
      between runs; within one call both loops see the same order. *)
Definition calculate_over (signals : list key) (signaling_scheme : scheme)
    : result float :=
    '(optimal_action_for_signal, _) <-
        best_response_loop signals signaling_scheme ;;
    total_loop signals signaling_scheme optimal_action_for_signal.

  (** The whole method, iterating the set in order of first insertion. *)
Definition calculate_sender_expected_utility (signaling_scheme : scheme)
    : result float :=
    calculate_over (signal_set signaling_scheme) signaling_scheme.

End Simulator.

(** ** baselines.py *)

Definition get_full_revelation_scheme (sts : list key) : scheme :=
  fold_left
    (fun sch state_omega =>
       setitem sch state_omega
         (fold_left
            (fun row state_m =>
               setitem row state_m
                 (if String.eqb state_omega state_m then 1 else 0))
            sts []))
    sts [].

Definition single_signal : key := "NoSignal".

Definition get_no_revelation_scheme (sts : list key) : scheme :=
  fold_left (fun sch state => setitem sch state [(single_signal, 1)]) sts [].

(** ** scenarios.py *)

Definition scenario_2 : BayesianGameSimulator := {|
  states := ["Good"; "Bad"];
  actions := ["Accept"; "Reject"];
  prior := [("Good", 0.5); ("Bad", 0.5)];
  u_s := [("Accept", [("Good", 1); ("Bad", 1)]);
          ("Reject", [("Good", 0); ("Bad", 0)])];
  u_r := [("Accept", [("Good", 1); ("Bad", -1)]);
          ("Reject", [("Good", 0); ("Bad", 0)])]
|}.

Definition scenario_1 : BayesianGameSimulator := {|
  states := ["High Quality"; "Medium Quality"; "Low Quality"];
  actions := ["Buy"; "Dont Buy"];
  prior := [("High Quality", 0.5); ("Medium Quality", 0.2);
            ("Low Quality", 0.3)];
  u_s := [("Buy", [("High Quality", 10); ("Medium Quality", 10);
                   ("Low Quality", 10)]);
          ("Dont Buy", [("High Quality", 0); ("Medium Quality", 0);
                        ("Low Quality", 0)])];
  u_r := [("Buy", [("High Quality", 5); ("Medium Quality", 1);
                   ("Low Quality", -10)]);
          ("Dont Buy", [("High Quality", 0); ("Medium Quality", 0);
                        ("Low Quality", 0)])]
|}.

(** ** llm_client.py *)

(** The message of a verdict, with the values its f-string prints. *)
Inductive message : Type :=
| KeysDoNotMatch
| NoSignalsDefined (state : key)
| ProbabilitiesSumTo (state : key) (prob_sum : float)
| ValidScheme.

(** [sum(signals.values())]: addition from the left, starting at 0 (the
    plain loop of the builtin, without the compensated summation of later
    interpreters). *)
Definition py_sum (xs : list float) : float :=
  fold_left PrimFloat.add xs 0.

(** The test [abs(prob_sum - 1.0) < 1e-6]. *)
Definition sums_to_one (prob_sum : float) : bool :=
  abs (prob_sum - 1) <? 1e-6.

(** The loop over [scheme.items()], leaving at the first bad row. *)
Fixpoint validate_rows (items : scheme) : bool * message :=
  match items with
  | [] => (true, ValidScheme)
  | (state, signals) :: items' =>
      match signals with
      | [] => (false, NoSignalsDefined state)
      | _ :: _ =>
          let prob_sum := py_sum (values signals) in
          if negb (sums_to_one prob_sum)
          then (false, ProbabilitiesSumTo state prob_sum)
          else validate_rows items'
      end
  end.

(** [validate_llm_scheme], on an output that parsed to a dictionary of
    dictionaries of numbers. *)
Definition validate_llm_scheme (sch : scheme) (sts : list key)
  : bool * message :=
  if negb (set_eqb (keys sch) sts) then (false, KeysDoNotMatch)
  else validate_rows sch.

(** The end of [get_llm_strategy], once the provider's output is parsed:
    the scheme is handed on only when the validator accepts it. *)
Definition get_llm_strategy_parsed (llm_scheme : scheme) (sts : list key)
  : option scheme * bool :=
  let '(is_valid, _) := validate_llm_scheme llm_scheme sts in
  if is_valid then (Some llm_scheme, true) else (None, false).

(** ** main.py *)

(** One LLM run of [run_experiment]: [u_llm] stays [None] unless the scheme
    is valid, in which case the simulator evaluates it. *)
Definition llm_run (sim : BayesianGameSimulator) (parsed : scheme)
  : option (result float) :=
  match get_llm_strategy_parsed parsed (states sim) with
  | (Some llm_scheme, true) =>
      Some (calculate_sender_expected_utility sim llm_scheme)
  | _ => None
  end.

(** * Specification-level notions *)

(** [Σ_x term x], added from the left in list order, starting at [acc]. *)
Fixpoint sum_from (acc : float) (xs : list key) (term : key -> result float)
  : result float :=
  match xs with
  | [] => Ok acc
  | x :: xs' => t <- term x ;; sum_from (acc + t) xs' term
  end.

Definition sigma (xs : list key) (term : key -> result float) : result float :=
  sum_from 0 xs term.

Section Spec.

Variable self : BayesianGameSimulator.

  (** [scheme[ω].get(signal, 0) × prior[ω]] *)
Definition joint (sch : scheme) (signal : key) (w : key) : result float :=
    row <- getitem sch w ;;
    p <- getitem (prior self) w ;;
    Ok (get_default row signal 0 * p).

  (** [marginal = Σ_ω scheme[ω].get(signal, 0) × prior[ω]] *)
Definition marginal (sch : scheme) (signal : key) : result float :=
    sigma (states self) (joint sch signal).

  (** [EU(a) = Σ_ω receiver_utility[a][ω] × posterior[ω]] *)
Definition EU (posterior : dict float) (a : key) : result float :=
    sigma (states self)
      (fun w =>
         urow <- getitem (u_r self) a ;;
         u <- getitem urow w ;;
         p <- getitem posterior w ;;
         Ok (u * p)).

  (** [a*(m)]: the best response to the posterior of signal [m]. *)
Definition best_response (sch : scheme) (m : key) : result (option key) :=
    '(posterior, _) <- _calculate_posterior_belief self m sch ;;
    _get_receiver_optimal_action self posterior.

  (** [Σ_m scheme[ω].get(m, 0) × sender_utility[a*(m)][ω]] *)
Definition sender_state_sum (sch : scheme) (signals : list key) (w : key)
    : result float :=
    sigma signals
      (fun m =>
         row <- getitem sch w ;;
         a <- best_response sch m ;;
         urow <- getitem_action (u_s self) a ;;
         u <- getitem urow w ;;
         Ok (get_default row m 0 * u)).

  (** [total = Σ_ω prior[ω] × Σ_m scheme[ω].get(m, 0) ×
      sender_utility[a*(m)][ω]] *)
Definition sender_total (sch : scheme) (signals : list key) : result float :=
    sigma (states self)
      (fun w =>
         s <- sender_state_sum sch signals w ;;
         p <- getitem (prior self) w ;;
         Ok (p * s)).

End Spec.


(** The spec's invariant on a prior: every mass is at least 0 and the masses
    of the states sum to 1.0 within the tolerance. *)
Definition prior_valid (self : BayesianGameSimulator) : bool :=
  forallb (fun p => 0 <=? p) (values (prior self))
  && set_eqb (keys (prior self)) (states self)
  && sums_to_one (py_sum (values (prior self))).

(** The two zeros of binary64, and the negative one. *)
Definition is_zero (x : float) : Prop := exists s, Prim2SF x = S754_zero s.

Definition is_neg_zero (x : float) : Prop := Prim2SF x = S754_zero true.

(** Every state of the model has a row in the scheme. *)
Definition covers_states (sch : scheme) (self : BayesianGameSimulator) : Prop :=
  forall w, In w (states self) -> exists row, get sch w = Some row.


(** * Concrete inputs *)

(** The pooling scheme and the fully revealing scheme of the binary game. *)
Definition no_revelation_2 : scheme :=
  get_no_revelation_scheme (states scenario_2).

Definition full_revelation_2 : scheme :=
  get_full_revelation_scheme (states scenario_2).


(** The pooling scheme of the binary game with a row for a state the game
    does not have; the set of signals is still the single pooling signal. *)
Definition pooling_with_extra_state : scheme :=
  no_revelation_2 ++ [("Ugly", [("NoSignal", 1)])].

(** A scheme for the binary game that lacks the row of state "Bad". *)
Definition scheme_with_missing_state : scheme :=
  [("Good", [("Go", 1)])].

(** Rows that sum to 1.0 with a negative entry. *)
Definition negative_probability_scheme : scheme :=
  [("Good", [("Accept", 1.5); ("Reject", -0.5)]);
   ("Bad", [("Accept", 1)])].

(** A game with one state and no action. *)
Definition game_without_actions : BayesianGameSimulator := {|
  states := ["A"];
  actions := [];
  prior := [("A", 1)];
  u_s := [];
  u_r := []
|}.


(** A game whose prior 0.3, 0.6, 0.1 sums to 1 in the reals. *)
Definition three_state_game : BayesianGameSimulator := {|
  states := ["A"; "B"; "C"];
  actions := ["a"];
  prior := [("A", 0.3); ("B", 0.6); ("C", 0.1)];
  u_s := [("a", [("A", 1); ("B", 1); ("C", 1)])];
  u_r := [("a", [("A", 1); ("B", 1); ("C", 1)])]
|}.

(** * The remaining functions of the sources *)

(** ** scenarios.py: the list of scenarios, each with its name *)

Definition all_scenarios : list (string * BayesianGameSimulator) :=
  [("QualityControl", scenario_1); ("SimpleBinaryGame", scenario_2)].

(** ** baselines.py: the hard-coded optimum

    [game_states] is [game_definition['states']], the only entry of the game
    definition that the function reads.  The scheme is [None] for a scenario
    that has no hard-coded optimum. *)
Definition calculate_theoretical_optimum (scenario_name : string)
  (game_states : list key) : option scheme * float :=
  if String.eqb scenario_name "SimpleBinaryGame" then
    (Some (get_no_revelation_scheme game_states), 1)
  else if String.eqb scenario_name "QualityControl" then
    (Some [("High Quality", [("SignalA", 1); ("SignalB", 0)]);
           ("Medium Quality", [("SignalA", 1); ("SignalB", 0)]);
           ("Low Quality", [("SignalA", 0); ("SignalB", 1)])],
     7)
  else (None, neg_infinity).

(** ** llm_client.py: the mock provider and the routing

    The dictionary that [_get_mock_strategy] builds and serialises. *)
Definition _get_mock_strategy (sts : list key) : scheme :=
  if set_eqb sts ["Good"; "Bad"] then
    [("Good", [("Good", 1); ("Bad", 0)]);
     ("Bad", [("Good", 0); ("Bad", 1)])]
  else if set_eqb sts ["High Quality"; "Medium Quality"; "Low Quality"] then
    [("High Quality",
      [("High Quality", 1); ("Medium Quality", 0); ("Low Quality", 0)]);
     ("Medium Quality",
      [("High Quality", 0); ("Medium Quality", 1); ("Low Quality", 0)]);
     ("Low Quality",
      [("High Quality", 0); ("Medium Quality", 0); ("Low Quality", 1)])]
  else
    fold_left
      (fun mock_scheme state =>
         setitem mock_scheme state
           (fold_left
              (fun row s => setitem row s (if String.eqb s state then 1 else 0))
              sts []))
      sts [].

(** The branch that [get_llm_strategy] takes on its [provider] argument; a
    name that starts with "poe-" selects the model named by the rest,
    [provider[4:]]. *)
Inductive provider_route : Type :=
| OpenAI
| Mock
| Poe (model_name : string)
| UnknownProvider.

Definition route_provider (provider : string) : provider_route :=
  if String.eqb provider "openai" then OpenAI
  else if String.eqb provider "mock" then Mock
  else if String.prefix "poe-" provider then
    Poe (String.substring 4 (String.length provider - 4) provider)
  else UnknownProvider.

(** ** main.py: the baselines and the metrics of one run *)

(** [min(a, b)]: the first argument stays unless the second is smaller. *)
Definition py_min (a b : float) : float :=
  if b <? a then b else a.

(** Step 2 of [run_experiment]:
    [(u_full_rev, u_no_rev, worst_baseline_util)]. *)
Definition baseline_utilities (sim : BayesianGameSimulator)
  : result (float * float * float) :=
  u_full_rev <- calculate_sender_expected_utility sim
                  (get_full_revelation_scheme (states sim)) ;;
  u_no_rev <- calculate_sender_expected_utility sim
                (get_no_revelation_scheme (states sim)) ;;
  Ok (u_full_rev, u_no_rev, py_min u_full_rev u_no_rev).

(** The metrics of a valid run: each stays [None] unless its guard against a
    division by zero lets it through. *)
Definition optimality_gap_of (u_opt u_llm : float) : option float :=
  if 0 <? u_opt then Some ((u_opt - u_llm) / u_opt) else None.

Definition rpl_of (u_opt worst_baseline_util u_llm : float) : option float :=
  let denom_rpl := u_opt - worst_baseline_util in
  if 0 <? denom_rpl then Some ((u_llm - worst_baseline_util) / denom_rpl)
  else None.

(** The row that one LLM run appends to the results. *)
Record run_row : Type := {
  u_llm : option float;
  optimality_gap : option float;
  rpl : option float;
  is_valid_scheme : bool
}.

(** One turn of the loop over the runs, for the parsed output of the
    provider.  A [KeyError] of the simulator is not caught. *)
Definition run_once (sim : BayesianGameSimulator)
  (u_opt worst_baseline_util : float) (parsed : scheme) : result run_row :=
  match get_llm_strategy_parsed parsed (states sim) with
  | (Some llm_scheme, true) =>
      u <- calculate_sender_expected_utility sim llm_scheme ;;
      Ok {| u_llm := Some u;
            optimality_gap := optimality_gap_of u_opt u;
            rpl := rpl_of u_opt worst_baseline_util u;
            is_valid_scheme := true |}
  | _ =>
      Ok {| u_llm := None; optimality_gap := None; rpl := None;
            is_valid_scheme := false |}
  end.

(** A game whose only action loses everything: its expected utility is
    minus infinity under every belief. *)
Definition game_with_infinite_loss : BayesianGameSimulator := {|
  states := ["A"];
  actions := ["a"];
  prior := [("A", 1)];
  u_s := [("a", [("A", 1)])];
  u_r := [("a", [("A", neg_infinity)])]
|}.



(** [scheme[w][m]] read as an option: the probability of signal [m] in the
    row of state [w], when both keys are there. *)
Definition lookup2 (sch : scheme) (w m : key) : option float :=
  match get sch w with
  | Some row => get row m
  | None => None
  end.

(** The sender and receiver utility of every action of the model in every
    state of the model, and the prior mass of every state, are there. *)
Definition tables_total (self : BayesianGameSimulator) : Prop :=
  (forall w, In w (states self) -> exists p, get (prior self) w = Some p) /\
  (forall a w, In a (actions self) -> In w (states self) ->
     exists urow u, get (u_r self) a = Some urow /\ get urow w = Some u) /\
  (forall a w, In a (actions self) -> In w (states self) ->
     exists urow u, get (u_s self) a = Some urow /\ get urow w = Some u).

(** What the loop over the actions has established after the prefix [pre],
    for [eu] the expected utility of each action: either nothing is selected
    yet, no expected utility seen so far comparing above minus infinity; or
    the running maximum is the expected utility of the action at some index
    [i], it compares above minus infinity, every action before [i] is
    strictly worse or has a NaN for expected utility, and no action seen so
    far is strictly better. *)
Definition chosen (eu : key -> float) (pre : list key)
  (st : float * option key) : Prop :=
  (st = (neg_infinity, None) /\
   forall b, In b pre -> (neg_infinity <? eu b) = false) \/
  exists i a,
    nth_error pre i = Some a /\ st = (eu a, Some a) /\
    (neg_infinity <? eu a) = true /\
    (forall j b, nth_error pre j = Some b -> (j < i)%nat ->
       (eu b <? eu a) = true \/ Prim2SF (eu b) = S754_nan) /\
    (forall b, In b pre -> (eu a <? eu b) = false).

(** A game whose two actions both cost the receiver everything. *)
Definition game_with_tied_infinite_loss : BayesianGameSimulator := {|
  states := ["A"];
  actions := ["a"; "b"];
  prior := [("A", 1)];
  u_s := [("a", [("A", 1)]); ("b", [("A", 1)])];
  u_r := [("a", [("A", neg_infinity)]); ("b", [("A", neg_infinity)])]
|}.

(** * Loops and dictionaries *)

Unset Implicit Arguments.

Lemma bind_ok (A B : Type) (r : result A) (k : A -> result B) (b : B) :
  bind r k = Ok b -> exists a, r = Ok a /\ k a = Ok b.
Proof.
  destruct r as [a|e]; simpl; intros H; [eauto | discriminate].
Qed.

Lemma for_each_ext (A S : Type) (xs : list A) (f g : S -> A -> result S) :
  (forall s x, In x xs -> f s x = g s x) ->
  forall s, for_each xs f s = for_each xs g s.
Proof.
  induction xs as [|x xs IH]; intros Hfg s; simpl; [reflexivity|].
  rewrite (Hfg s x) by (left; reflexivity).
  destruct (g s x) as [s'|e]; simpl; [|reflexivity].
  apply IH. intros s0 y Hy. apply Hfg. right; exact Hy.
Qed.

(** A body that raises at some element, whatever the state, makes the loop
    raise. *)
Lemma for_each_raises (A S : Type) (xs : list A) (f : S -> A -> result S)
  (x : A) :
  In x xs -> (forall s, f s x = Raise KeyError) ->
  forall s, for_each xs f s = Raise KeyError.
Proof.
  induction xs as [|y xs IH]; intros Hin Hx s; [destruct Hin|].
  simpl. destruct (f s y) as [s'|[]] eqn:E; simpl; [|reflexivity].
  destruct Hin as [->|Hin]; [rewrite Hx in E; discriminate | now apply IH].
Qed.

(** A loop that adds one term per element is the sum of the terms. *)
Lemma for_each_sum (xs : list key) (body : float -> key -> result float)
  (term : key -> result float) :
  (forall acc x, In x xs -> body acc x = t <- term x ;; Ok (acc + t)) ->
  forall acc, for_each xs body acc = sum_from acc xs term.
Proof.
  induction xs as [|x xs IH]; intros Hb acc; simpl; [reflexivity|].
  rewrite Hb by (left; reflexivity).
  destruct (term x) as [t|e]; simpl; [|reflexivity].
  apply IH. intros a y Hy. apply Hb. right; exact Hy.
Qed.

Lemma sum_from_ext (xs : list key) (f g : key -> result float) :
  (forall x, In x xs -> f x = g x) ->
  forall acc, sum_from acc xs f = sum_from acc xs g.
Proof.
  induction xs as [|x xs IH]; intros Hfg acc; simpl; [reflexivity|].
  rewrite (Hfg x) by (left; reflexivity).
  destruct (g x) as [t|e]; simpl; [|reflexivity].
  apply IH. intros y Hy. apply Hfg. right; exact Hy.
Qed.

Lemma sum_from_raises (xs : list key) (f : key -> result float) (x : key) :
  In x xs -> f x = Raise KeyError ->
  forall acc, sum_from acc xs f = Raise KeyError.
Proof.
  induction xs as [|y xs IH]; intros Hin Hx acc; [destruct Hin|].
  simpl. destruct (f y) as [t|[]] eqn:E; simpl; [|reflexivity].
  destruct Hin as [->|Hin]; [rewrite Hx in E; discriminate | now apply IH].
Qed.

(** Every term of a sum that returns is defined. *)
Lemma sum_from_ok (xs : list key) (f : key -> result float) :
  forall acc v, sum_from acc xs f = Ok v ->
  forall x, In x xs -> exists t, f x = Ok t.
Proof.
  induction xs as [|y xs IH]; intros acc v H x Hin; [destruct Hin|].
  simpl in H. apply bind_ok in H. destruct H as (t & Ht & H).
  destruct Hin as [->|Hin]; [eauto | eapply IH; eauto].
Qed.

Section DictFacts.

Variable V : Type.
Implicit Types (d : dict V) (k : key) (v : V).

Lemma get_setitem_same d k v : get (setitem d k v) k = Some v.
Proof.
    induction d as [|[k' v'] d IH]; simpl.
    - now rewrite String.eqb_refl.
    - destruct (String.eqb k' k) eqn:E; simpl; rewrite E; [reflexivity | exact IH].
Qed.

Lemma get_setitem_other d k k' v :
    k <> k' -> get (setitem d k v) k' = get d k'.
Proof.
    intros Hne. induction d as [|[k0 v0] d IH]; simpl.
    - destruct (String.eqb_spec k k'); [contradiction | reflexivity].
    - destruct (String.eqb_spec k0 k) as [->|Hk]; simpl.
      + destruct (String.eqb_spec k k'); [contradiction | reflexivity].
      + destruct (String.eqb k0 k'); [reflexivity | exact IH].
Qed.

Lemma get_in_keys d k v : get d k = Some v -> In k (keys d).
Proof.
    induction d as [|[k' v'] d IH]; simpl; [discriminate|].
    destruct (String.eqb_spec k' k) as [->|Hk]; [now left | intros H; right; auto].
Qed.

Lemma keys_setitem d k v :
    keys (setitem d k v) = if mem k (keys d) then keys d else keys d ++ [k].
Proof.
    induction d as [|[k' v'] d IH]; simpl; [reflexivity|].
    rewrite (String.eqb_sym k k').
    destruct (String.eqb k' k) eqn:E; simpl; [reflexivity|].
    unfold keys in *. rewrite IH.
    unfold mem. destruct (existsb (String.eqb k) (map fst d)); reflexivity.
Qed.

End DictFacts.

Lemma mem_In (k : key) (xs : list key) : mem k xs = true <-> In k xs.
Proof.
  unfold mem. rewrite existsb_exists. split.
  - intros (x & Hx & E). apply String.eqb_eq in E. now subst.
  - intros H. exists k. split; [exact H | apply String.eqb_refl].
Qed.

Lemma mem_false (k : key) (xs : list key) : mem k xs = false <-> ~ In k xs.
Proof.
  rewrite <- mem_In. destruct (mem k xs); split; intros; congruence.
Qed.

(** * The order of binary64 numbers

    [<?] on floats is the comparison of the IEEE specification; the facts
    below are read off [SFcompare]. *)

Ltac cmp_cases :=
  repeat match goal with
  | |- context [Pos.compare_cont Eq ?a ?b] =>
      change (Pos.compare_cont Eq a b) with (Pos.compare a b)
  | H : context [Pos.compare_cont Eq ?a ?b] |- _ =>
      change (Pos.compare_cont Eq a b) with (Pos.compare a b) in H
  | |- context [Z.compare ?a ?b] => destruct (Z.compare_spec a b); subst
  | H : context [Z.compare ?a ?b] |- _ => destruct (Z.compare_spec a b); subst
  | |- context [Pos.compare ?a ?b] => destruct (Pos.compare_spec a b); subst
  | H : context [Pos.compare ?a ?b] |- _ =>
      destruct (Pos.compare_spec a b); subst
  end; simpl in *; try discriminate; try reflexivity; try lia.

Lemma SFltb_trans (x y z : spec_float) :
  SFltb x y = true -> SFltb y z = true -> SFltb x z = true.
Proof.
  unfold SFltb.
  destruct x as [[]|[]| |[] mx ex], y as [[]|[]| |[] my ey],
           z as [[]|[]| |[] mz ez];
    simpl; try discriminate; try reflexivity; intros; cmp_cases.
Qed.

(** For [v] a number: what is not above [m] is below whatever is above
    [m]. *)
Lemma SFltb_negtrans (m v w : spec_float) :
  v <> S754_nan ->
  SFltb m v = false -> SFltb m w = true -> SFltb v w = true.
Proof.
  unfold SFltb.
  destruct m as [[]|[]| |[] mx ex], v as [[]|[]| |[] my ey],
           w as [[]|[]| |[] mz ez];
    simpl; try discriminate; try reflexivity; try congruence; intros;
    cmp_cases.
Qed.

Lemma SFltb_irrefl (x : spec_float) : SFltb x x = false.
Proof.
  unfold SFltb. destruct x as [[]|[]| |[] mx ex]; simpl; try reflexivity;
    rewrite Z.compare_refl;
    change (Pos.compare_cont Eq mx mx) with (Pos.compare mx mx);
    rewrite Pos.compare_refl; reflexivity.
Qed.

Lemma SFltb_not_eqb (x y : spec_float) :
  SFltb x y = true -> SFeqb x y = false.
Proof.
  unfold SFltb, SFeqb. destruct (SFcompare x y) as [[]|]; congruence.
Qed.

Lemma ltb_trans (x y z : float) :
  (x <? y) = true -> (y <? z) = true -> (x <? z) = true.
Proof. rewrite !FloatAxioms.ltb_spec. apply SFltb_trans. Qed.

Lemma ltb_irrefl (x : float) : (x <? x) = false.
Proof. rewrite FloatAxioms.ltb_spec. apply SFltb_irrefl. Qed.

Lemma ltb_not_eqb (x y : float) : (x <? y) = true -> (x =? y) = false.
Proof. rewrite FloatAxioms.ltb_spec, FloatAxioms.eqb_spec. apply SFltb_not_eqb. Qed.

(** What is not above [m] is below whatever is above [m], unless it is a
    NaN. *)
Lemma ltb_negtrans (m v w : float) :
  (m <? v) = false -> (m <? w) = true ->
  (v <? w) = true \/ Prim2SF v = S754_nan.
Proof.
  rewrite !FloatAxioms.ltb_spec. intros H1 H2.
  destruct (Prim2SF v) as [sv|sv| |sv mv ev] eqn:E; [left|left|now right|left];
    (apply (SFltb_negtrans (Prim2SF m)); [discriminate|exact H1|exact H2]).
Qed.

(** A NaN compares equal to nothing. *)
Lemma nan_not_eqb (x y : float) :
  Prim2SF x = S754_nan -> (x =? y) = false.
Proof. rewrite FloatAxioms.eqb_spec. now intros ->. Qed.

(** * Exact products and quotients

    The arithmetic of the IEEE specification rounds every result; a product
    with 1.0 and a quotient by 1.0 need no rounding.  The mantissa of 1.0 is
    [2^52] and its exponent is -52. *)

Lemma iter_pos_iter (A : Type) (f : A -> A) (n : positive) (x : A) :
  SpecFloat.iter_pos f n x = Pos.iter f x n.
Proof.
  revert x. induction n as [n IH|n IH|]; intros x; simpl.
  - rewrite !IH. now rewrite <- !Pos.iter_swap.
  - now rewrite !IH.
  - reflexivity.
Qed.

Lemma shr_exact (k m : positive) :
  SpecFloat.iter_pos shr_1 k {| shr_m := Zpos (Pos.iter xO m k); shr_r := false; shr_s := false |}
  = {| shr_m := Zpos m; shr_r := false; shr_s := false |}.
Proof.
  rewrite iter_pos_iter. induction k as [|k IH] using Pos.peano_ind.
  - reflexivity.
  - rewrite !Pos.iter_succ. rewrite <- Pos.iter_swap. simpl. exact IH.
Qed.

Lemma digits2_shift (k m : positive) :
  Zpos (digits2_pos (Pos.iter xO m k)) = (Zpos (digits2_pos m) + Zpos k)%Z.
Proof.
  induction k as [|k IH] using Pos.peano_ind.
  - simpl. lia.
  - rewrite Pos.iter_succ. simpl. lia.
Qed.

Lemma round_tail (s : bool) (m : positive) (e : Z) :
  bounded prec emax m e = true ->
  (let '(mrs, e') := shr_fexp prec emax (Zpos m) e loc_Exact in
   match shr_m mrs with
   | Z0 => S754_zero s
   | Zpos m0 =>
       if (e' <=? emax - prec)%Z then S754_finite s m0 e' else S754_infinity s
   | Zneg _ => S754_nan
   end) = S754_finite s m e.
Proof.
  unfold bounded, canonical_mantissa. intros H.
  apply andb_prop in H. destruct H as (Hc & He). apply Z.eqb_eq in Hc.
  unfold shr_fexp. cbv beta iota delta [Zdigits2]. rewrite Hc, Z.sub_diag.
  cbv beta iota delta [shr shr_record_of_loc shr_m]. now rewrite He.
Qed.

Lemma binary_round_aux_id (s : bool) (m : positive) (e : Z) :
  bounded prec emax m e = true ->
  binary_round_aux prec emax s (Zpos m) e loc_Exact = S754_finite s m e.
Proof.
  intros H. pose proof H as Hb.
  unfold bounded, canonical_mantissa in H.
  apply andb_prop in H. destruct H as (Hc & He). apply Z.eqb_eq in Hc.
  unfold binary_round_aux, shr_fexp at 1.
  cbv beta iota delta [Zdigits2]. rewrite Hc, Z.sub_diag.
  cbv beta iota delta [shr shr_record_of_loc].
  exact (round_tail s m e Hb).
Qed.

Lemma binary_round_aux_shifted (s : bool) (m k : positive) (e : Z) :
  bounded prec emax m e = true ->
  binary_round_aux prec emax s (Zpos (Pos.iter xO m k)) (e - Zpos k) loc_Exact
  = S754_finite s m e.
Proof.
  intros H. pose proof H as Hb.
  unfold bounded, canonical_mantissa in H.
  apply andb_prop in H. destruct H as (Hc & He). apply Z.eqb_eq in Hc.
  unfold binary_round_aux, shr_fexp at 1. cbv beta iota delta [Zdigits2].
  rewrite digits2_shift.
  replace (Zpos (digits2_pos m) + Zpos k + (e - Zpos k))%Z
    with (Zpos (digits2_pos m) + e)%Z by lia.
  rewrite Hc. replace (e - (e - Zpos k))%Z with (Zpos k) by lia.
  cbv beta iota delta [shr_record_of_loc]. unfold shr at 1.
  rewrite shr_exact.
  replace (e - Zpos k + Zpos k)%Z with e by lia.
  exact (round_tail s m e Hb).
Qed.

(** Multiplying by 1.0 changes no float, whatever its class. *)
Lemma mul_1_l (x : float) : 1 * x = x.
Proof.
  apply Prim2SF_inj. rewrite FloatAxioms.mul_spec.
  pose proof (Prim2SF_valid x) as Hv.
  destruct (Prim2SF x) as [s|s| |s m e].
  - destruct s; vm_compute; reflexivity.
  - destruct s; vm_compute; reflexivity.
  - vm_compute; reflexivity.
  - change (Prim2SF 1) with (S754_finite false 4503599627370496 (-52)).
    unfold SF64mul, SFmul.
    change (Pos.mul 4503599627370496 m) with (Pos.iter xO m 52).
    replace (-52 + e)%Z with (e - Zpos 52)%Z by lia.
    change (xorb false s) with s.
    now apply binary_round_aux_shifted.
Qed.

Lemma div_eucl_mul (a b : Z) : (0 < b)%Z -> Z.div_eucl (a * b) b = (a, 0%Z).
Proof.
  intros Hb.
  pose proof (Z.div_mul a b ltac:(lia)) as Hq.
  pose proof (Z.mod_mul a b ltac:(lia)) as Hr.
  unfold Z.div, Z.modulo in Hq, Hr.
  destruct (Z.div_eucl (a * b) b) as (q, r). now subst.
Qed.

Lemma div_core_one (m : positive) (e : Z) :
  bounded prec emax m e = true ->
  SFdiv_core_binary prec emax (Zpos m) e (Zpos 4503599627370496) (-52)
  = (Zpos (Pos.iter xO m 1), (e - Zpos 1)%Z, loc_Exact) \/
  SFdiv_core_binary prec emax (Zpos m) e (Zpos 4503599627370496) (-52)
  = (Zpos m, e, loc_Exact).
Proof.
  unfold bounded, canonical_mantissa. intros H.
  apply andb_prop in H. destruct H as (Hc & _). apply Z.eqb_eq in Hc.
  unfold SFdiv_core_binary.
  change (Zdigits2 (Zpos 4503599627370496)) with 53%Z.
  cbv beta iota delta [Zdigits2].
  set (d := Zpos (digits2_pos m)) in *.
  assert (Hd : (0 < d)%Z) by (unfold d; lia).
  unfold fexp, emin in *. change prec with 53%Z in *.
  change emax with 1024%Z in *.
  set (e' := Z.min _ _).
  assert (He' : e' = (e - 1)%Z \/ e' = e) by (unfold e'; lia).
  destruct He' as [He'|He']; rewrite He'; [left|right].
  - replace (e - -52 - (e - 1))%Z with 53%Z by lia.
    rewrite Z.shiftl_mul_pow2 by lia.
    replace (Zpos m * 2 ^ 53)%Z with ((Zpos m * 2) * 4503599627370496)%Z
      by (change (2 ^ 53)%Z with (2 * 4503599627370496)%Z; lia).
    rewrite div_eucl_mul by lia.
    replace (Zpos m * 2)%Z with (Zpos (Pos.iter xO m 1)) by (simpl; lia).
    reflexivity.
  - replace (e - -52 - e)%Z with 52%Z by lia.
    rewrite Z.shiftl_mul_pow2 by lia.
    change (2 ^ 52)%Z with 4503599627370496%Z.
    rewrite div_eucl_mul by lia. reflexivity.
Qed.

(** Dividing by 1.0 changes no float either. *)
Lemma div_1_r (x : float) : x / 1 = x.
Proof.
  apply Prim2SF_inj. rewrite FloatAxioms.div_spec.
  pose proof (Prim2SF_valid x) as Hv.
  destruct (Prim2SF x) as [s|s| |s m e].
  - destruct s; vm_compute; reflexivity.
  - destruct s; vm_compute; reflexivity.
  - vm_compute; reflexivity.
  - change (Prim2SF 1) with (S754_finite false 4503599627370496 (-52)).
    unfold SF64div, SFdiv.
    replace (xorb s false) with s by (now destruct s).
    simpl in Hv.
    destruct (div_core_one m e Hv) as [-> | ->].
    + now apply binary_round_aux_shifted.
    + now apply binary_round_aux_id.
Qed.

(** * Zeros

    A running sum that starts at +0.0 never becomes -0.0, and adding a zero
    of either sign to anything else than -0.0 changes nothing. *)










(** Adding a zero of either sign changes nothing but the negative zero. *)
Lemma add_zero_r (x z : float) :
  is_zero z -> ~ is_neg_zero x -> x + z = x.
Proof.
  unfold is_zero, is_neg_zero. intros (s & Hz) Hx.
  apply Prim2SF_inj. rewrite FloatAxioms.add_spec, Hz.
  destruct (Prim2SF x) as [[]|sx| |sx mx ex]; simpl; try reflexivity.
  - congruence.
  - now destruct s.
Qed.


Lemma is_zero_eqb (x : float) : is_zero x -> (x =? 0) = true.
Proof.
  unfold is_zero. intros (s & Hx). rewrite FloatAxioms.eqb_spec, Hx. now destruct s.
Qed.

(** [is_finite] excludes the infinities and NaN. *)
Lemma is_finite_spec (u : float) :
  is_finite u = true ->
  (exists s, Prim2SF u = S754_zero s) \/
  (exists s m e, Prim2SF u = S754_finite s m e).
Proof.
  unfold is_finite, is_nan, is_infinity.
  rewrite !FloatAxioms.eqb_spec, FloatAxioms.abs_spec.
  destruct (Prim2SF u) as [s|s| |s m e]; eauto.
  - simpl. rewrite orb_true_r. discriminate.
  - simpl. discriminate.
Qed.

(** Zero times a finite float is a zero. *)
Lemma mul_zero_finite (u : float) : is_finite u = true -> is_zero (0 * u).
Proof.
  intros H. apply is_finite_spec in H. unfold is_zero. rewrite FloatAxioms.mul_spec.
  change (Prim2SF 0) with (S754_zero false).
  destruct H as [(s & ->)|(s & m & e & ->)]; simpl; eauto.
Qed.

(** * BeliefUpdater *)

Lemma prob_signal_loop_marginal (self : BayesianGameSimulator) (signal : key)
  (sch : scheme) :
  prob_signal_loop self signal sch = marginal self sch signal.
Proof.
  unfold prob_signal_loop, marginal, sigma. apply for_each_sum.
  intros acc x _. unfold joint.
  destruct (getitem sch x) as [row|e]; simpl; [|reflexivity].
  destruct (getitem (prior self) x) as [p|e]; reflexivity.
Qed.

(** A loop that stores one computed entry per element. *)
Lemma for_each_setitem (V : Type) (f : key -> result V) (xs : list key) :
  (forall x, In x xs -> exists t, f x = Ok t) ->
  forall d0 : dict V,
  exists d,
    for_each xs (fun d x => t <- f x ;; Ok (setitem d x t)) d0 = Ok d /\
    (forall x t, In x xs -> f x = Ok t -> get d x = Some t) /\
    (forall y, ~ In y xs -> get d y = get d0 y).
Proof.
  induction xs as [|x xs IH]; intros Hdef d0.
  - exists d0. simpl. split; [reflexivity|]. split; [intros x t []|reflexivity].
  - destruct (Hdef x (or_introl eq_refl)) as (t & Ht).
    destruct (IH (fun y Hy => Hdef y (or_intror Hy)) (setitem d0 x t))
      as (d & Hd & Hin & Hout).
    exists d. simpl. rewrite Ht. simpl. split; [exact Hd|]. split.
    + intros y u [<-|Hy] Hu.
      * destruct (in_dec string_dec x xs) as [Hx|Hx]; [now apply Hin|].
        rewrite (Hout x Hx). rewrite Ht in Hu. injection Hu as <-.
        apply get_setitem_same.
      * now apply Hin.
    + intros y Hy. rewrite Hout by (intros H; apply Hy; now right).
      apply get_setitem_other. intros ->. apply Hy. now left.
Qed.

Lemma posterior_loop_joint (self : BayesianGameSimulator) (signal : key)
  (sch : scheme) (mg : float) :
  posterior_loop self signal sch mg =
  for_each (states self)
    (fun d w =>
       t <- (j <- joint self sch signal w ;; Ok (j / mg)) ;;
       Ok (setitem d w t))
    [].
Proof.
  unfold posterior_loop. apply for_each_ext. intros d w _. unfold joint.
  destruct (getitem sch w) as [row|e]; simpl; [|reflexivity].
  destruct (getitem (prior self) w) as [p|e]; reflexivity.
Qed.

(** The second branch of [_calculate_posterior_belief]: Bayes' rule, state
    by state. *)
Lemma bayes_posterior_of_marginal (self : BayesianGameSimulator)
  (sch : scheme) (signal : key) (mg : float) :
  marginal self sch signal = Ok mg ->
  (mg =? 0) = false ->
  exists posterior,
    _calculate_posterior_belief self signal sch = Ok (posterior, mg) /\
    (forall w, In w (states self) ->
       exists row p,
         get sch w = Some row /\ get (prior self) w = Some p /\
         get posterior w = Some (get_default row signal 0 * p / mg) /\
         (get row signal = None -> get posterior w = Some (0 * p / mg))) /\
    (forall w, ~ In w (states self) -> get posterior w = None).
Proof.
  intros Hmg Hnz.
  assert (Hdef : forall w, In w (states self) ->
            exists t, (j <- joint self sch signal w ;; Ok (j / mg)) = Ok t).
  { intros w Hw. destruct (sum_from_ok _ _ _ _ Hmg w Hw) as (j & Hj).
    exists (j / mg). now rewrite Hj. }
  destruct (for_each_setitem _ _ _ Hdef []) as (post & Hpost & Hin & Hout).
  exists post. split; [|split].
  - unfold _calculate_posterior_belief.
    rewrite prob_signal_loop_marginal, Hmg. simpl. rewrite Hnz.
    rewrite posterior_loop_joint, Hpost. reflexivity.
  - intros w Hw. destruct (sum_from_ok _ _ _ _ Hmg w Hw) as (j & Hj).
    unfold joint, getitem in Hj.
    destruct (get sch w) as [row|] eqn:Erow; [|discriminate].
    destruct (get (prior self) w) as [p|] eqn:Ep; [|discriminate].
    simpl in Hj. injection Hj as <-.
    exists row, p. repeat split.
    + apply Hin; [exact Hw|]. unfold joint, getitem.
      now rewrite Erow, Ep.
    + intros Habs. erewrite Hin; [|exact Hw|].
      2:{ unfold joint, getitem. rewrite Erow, Ep. reflexivity. }
      unfold get_default. now rewrite Habs.
  - intros w Hw. now rewrite Hout.
Qed.

(** C1: when the marginal of a signal is defined and is not zero,
    [_calculate_posterior_belief] returns that marginal together with a
    posterior whose keys are the model's states and whose value at each
    state [w] is [scheme[w].get(signal, 0) * prior[w] / marginal]; a signal
    that a state's row does not mention enters these products as 0 and
    raises nothing. *)
Theorem posterior_is_bayes_rule (self : BayesianGameSimulator)
  (sch : scheme) (signal : key) (mg : float) :
  marginal self sch signal = Ok mg ->
  (mg =? 0) = false ->
  exists posterior,
    _calculate_posterior_belief self signal sch = Ok (posterior, mg) /\
    (forall w, In w (states self) ->
       exists row p,
         get sch w = Some row /\ get (prior self) w = Some p /\
         get posterior w = Some (get_default row signal 0 * p / mg) /\
         (get row signal = None -> get posterior w = Some (0 * p / mg))) /\
    (forall w, ~ In w (states self) -> get posterior w = None).
Proof. exact (bayes_posterior_of_marginal self sch signal mg). Qed.

(** The first branch: the guard against a division by zero. *)
Lemma prior_of_zero_marginal (self : BayesianGameSimulator)
  (sch : scheme) (signal : key) (mg : float) :
  marginal self sch signal = Ok mg ->
  (mg =? 0) = true ->
  _calculate_posterior_belief self signal sch = Ok (prior self, 0).
Proof.
  intros Hmg Hz. unfold _calculate_posterior_belief.
  rewrite prob_signal_loop_marginal, Hmg. simpl. now rewrite Hz.
Qed.

(** C4: when the marginal of a signal is defined and equals zero,
    [_calculate_posterior_belief] returns the model's prior as the posterior
    and 0.0 as the marginal, and raises nothing. *)
Theorem unreachable_signal_gets_prior (self : BayesianGameSimulator)
  (sch : scheme) (signal : key) (mg : float) :
  marginal self sch signal = Ok mg ->
  (mg =? 0) = true ->
  _calculate_posterior_belief self signal sch = Ok (prior self, 0).
Proof. exact (prior_of_zero_marginal self sch signal mg). Qed.

Lemma posterior_is_bayes_rule_witness :
  exists posterior,
    _calculate_posterior_belief scenario_2 "Good"
      (get_full_revelation_scheme (states scenario_2)) = Ok (posterior, 0.5) /\
    (forall w, In w (states scenario_2) ->
       exists row p,
         get (get_full_revelation_scheme (states scenario_2)) w = Some row /\
         get (prior scenario_2) w = Some p /\
         get posterior w = Some (get_default row "Good" 0 * p / 0.5) /\
         (get row "Good" = None -> get posterior w = Some (0 * p / 0.5))) /\
    (forall w, ~ In w (states scenario_2) -> get posterior w = None).
Proof.
  apply (@posterior_is_bayes_rule scenario_2
           (get_full_revelation_scheme (states scenario_2)) "Good" 0.5).
  - vm_compute. reflexivity.
  - vm_compute. reflexivity.
Defined.

Lemma unreachable_signal_gets_prior_witness :
  _calculate_posterior_belief scenario_2 "Unsent"
    (get_no_revelation_scheme (states scenario_2))
  = Ok (prior scenario_2, 0).
Proof.
  apply (@unreachable_signal_gets_prior scenario_2
           (get_no_revelation_scheme (states scenario_2)) "Unsent" 0).
  - vm_compute. reflexivity.
  - vm_compute. reflexivity.
Defined.

(** * BestResponseSelector *)

Lemma expected_utility_loop_EU (self : BayesianGameSimulator)
  (posterior : dict float) (a : key) :
  expected_utility_loop self posterior a = EU self posterior a.
Proof.
  unfold expected_utility_loop, EU, sigma. apply for_each_sum.
  intros acc w _.
  destruct (getitem (u_r self) a) as [urow|e]; simpl; [|reflexivity].
  destruct (getitem urow w) as [u|e]; simpl; [|reflexivity].
  destruct (getitem posterior w) as [p|e]; reflexivity.
Qed.

Section BestResponse.

Variable self : BayesianGameSimulator.
Variable posterior : dict float.
Variable eu : key -> float.

Lemma chosen_step (pre : list key) (st : float * option key) (a : key) :
  chosen eu pre st ->
  chosen eu (pre ++ [a])
    (if fst st <? eu a then (eu a, Some a) else st).
Proof.
  intros [[-> Hlow]|(i & a0 & Hi & -> & Hnum & Hbefore & Hmax)]; simpl.
  - destruct (neg_infinity <? eu a) eqn:Ha.
    + right. exists (List.length pre), a.
      split; [|split; [reflexivity|split; [exact Ha|split]]].
      * rewrite nth_error_app2 by lia. now rewrite Nat.sub_diag.
      * intros j b Hj Hlen. rewrite nth_error_app1 in Hj by exact Hlen.
        assert (Hb : In b pre) by (eapply nth_error_In; eauto).
        exact (ltb_negtrans _ _ _ (Hlow b Hb) Ha).
      * intros b Hb. apply in_app_or in Hb. destruct Hb as [Hb|[<-|[]]].
        -- destruct (eu a <? eu b) eqn:E; [|reflexivity].
           rewrite <- (Hlow b Hb). symmetry.
           exact (ltb_trans _ _ _ Ha E).
        -- apply ltb_irrefl.
    + left. split; [reflexivity|].
      intros b Hb. apply in_app_or in Hb. destruct Hb as [Hb|[<-|[]]].
      * now apply Hlow.
      * exact Ha.
  - right. destruct (eu a0 <? eu a) eqn:Hlt.
    + exists (List.length pre), a.
      split; [|split; [reflexivity|split; [|split]]].
      * rewrite nth_error_app2 by lia. now rewrite Nat.sub_diag.
      * exact (ltb_trans _ _ _ Hnum Hlt).
      * intros j b Hj Hlen. rewrite nth_error_app1 in Hj by exact Hlen.
        assert (Hb : In b pre) by (eapply nth_error_In; eauto).
        exact (ltb_negtrans _ _ _ (Hmax b Hb) Hlt).
      * intros b Hb. apply in_app_or in Hb. destruct Hb as [Hb|[<-|[]]].
        -- destruct (eu a <? eu b) eqn:E; [|reflexivity].
           rewrite <- (Hmax b Hb). symmetry.
           exact (ltb_trans _ _ _ Hlt E).
        -- apply ltb_irrefl.
    + assert (Hlen : (i < List.length pre)%nat).
      { apply nth_error_Some. congruence. }
      exists i, a0. split; [|split; [reflexivity|split; [exact Hnum|split]]].
      * now rewrite nth_error_app1.
      * intros j b Hj Hji. rewrite nth_error_app1 in Hj by lia.
        now apply (Hbefore j).
      * intros b Hb. apply in_app_or in Hb. destruct Hb as [Hb|[<-|[]]].
        -- now apply Hmax.
        -- exact Hlt.
Qed.

Lemma receiver_loop_chosen (rest pre : list key) (st : float * option key) :
  (forall a, In a (pre ++ rest) -> EU self posterior a = Ok (eu a)) ->
  chosen eu pre st ->
  exists st',
    for_each rest (receiver_step self posterior) st = Ok st' /\
    chosen eu (pre ++ rest) st'.
Proof.
  revert pre st. induction rest as [|a rest IH]; intros pre st Hall Hsel.
  - exists st. rewrite app_nil_r. now split.
  - assert (Ha : In a (pre ++ a :: rest)) by (apply in_or_app; right; now left).
    pose proof (Hall a Ha) as HEU.
    simpl. unfold receiver_step at 1.
    rewrite expected_utility_loop_EU, HEU. simpl.
    replace (pre ++ a :: rest) with ((pre ++ [a]) ++ rest) in *
      by (rewrite <- app_assoc; reflexivity).
    destruct (IH (pre ++ [a])
                (if fst st <? eu a then (eu a, Some a) else st)) as (st' & H1 & H2).
    + exact Hall.
    + now apply chosen_step.
    + exists st'. split; [|exact H2].
      destruct (fst st <? eu a); exact H1.
Qed.

End BestResponse.

(** C2, as the code has it: a non-empty action list does not make the
    selector return an action.  The running maximum starts at minus infinity
    and an action is selected only when its expected utility is strictly
    above it: in the game whose two actions both have expected utility minus
    infinity under the prior, a tie with exact float equality, the selector
    returns [None] and not "a", the first action. *)
Lemma tied_at_minus_infinity_returns_none :
  actions game_with_tied_infinite_loss = ["a"; "b"] /\
  EU game_with_tied_infinite_loss (prior game_with_tied_infinite_loss) "a"
  = Ok neg_infinity /\
  EU game_with_tied_infinite_loss (prior game_with_tied_infinite_loss) "b"
  = Ok neg_infinity /\
  (neg_infinity =? neg_infinity) = true /\
  _get_receiver_optimal_action game_with_tied_infinite_loss
    (prior game_with_tied_infinite_loss) = Ok None /\
  _get_receiver_optimal_action game_with_tied_infinite_loss
    (prior game_with_tied_infinite_loss) <> Ok (Some "a").
Proof.
  repeat split; try (vm_compute; reflexivity).
  vm_compute. discriminate.
Qed.

(** C2, amended: when the expected utility
    [EU(a) = Σ_w u_r[a][w] * posterior[w]] of every action is defined,
    [_get_receiver_optimal_action] returns as follows.  If that of at least
    one action compares above minus infinity, it returns the action at some
    index [i] of the action list such that its expected utility compares
    above minus infinity, every action before [i] has a strictly smaller
    expected utility or a NaN, and no action at all has a strictly greater
    one; so among the actions that tie for the maximum, exact float equality
    included, the earliest in the list is returned.  If no expected utility
    compares above minus infinity, it returns [None], however many actions
    there are. *)
Theorem best_response_is_first_maximiser (self : BayesianGameSimulator)
  (posterior : dict float) (eu : key -> float) :
  (forall a, In a (actions self) -> EU self posterior a = Ok (eu a)) ->
  ((exists a, In a (actions self) /\ (neg_infinity <? eu a) = true) ->
   exists i a,
     nth_error (actions self) i = Some a /\
     _get_receiver_optimal_action self posterior = Ok (Some a) /\
     (neg_infinity <? eu a) = true /\
     (forall j b, nth_error (actions self) j = Some b -> (j < i)%nat ->
        (eu b <? eu a) = true \/ Prim2SF (eu b) = S754_nan) /\
     (forall b, In b (actions self) -> (eu a <? eu b) = false) /\
     (forall j b, nth_error (actions self) j = Some b ->
        (eu b =? eu a) = true -> (i <= j)%nat)) /\
  ((forall a, In a (actions self) -> (neg_infinity <? eu a) = false) ->
   _get_receiver_optimal_action self posterior = Ok None).
Proof.
  intros Hall.
  destruct (receiver_loop_chosen self posterior eu (actions self) []
              (neg_infinity, None)) as (st & Hloop & Hsel).
  - exact Hall.
  - left. split; [reflexivity|]. intros b [].
  - simpl in Hsel. unfold _get_receiver_optimal_action. rewrite Hloop. simpl.
    destruct Hsel as [[-> Hlow]|(i & a & Hi & -> & Hnum & Hbefore & Hmax)].
    + split; [|reflexivity].
      intros (a1 & Hin1 & Habove).
      rewrite (Hlow a1 Hin1) in Habove. discriminate.
    + split.
      * intros _. exists i, a. split; [exact Hi|].
        split; [reflexivity|].
        split; [exact Hnum|split; [exact Hbefore|split; [exact Hmax|]]].
        intros j b Hj Heq.
        destruct (Nat.le_gt_cases i j) as [Hle|Hlt]; [exact Hle|].
        destruct (Hbefore j b Hj Hlt) as [Hlt'|Hnan].
        -- apply ltb_not_eqb in Hlt'. congruence.
        -- rewrite (nan_not_eqb _ (eu a) Hnan) in Heq. discriminate.
      * intros Hlow.
        assert (Hin : In a (actions self)) by (eapply nth_error_In; eauto).
        rewrite (Hlow a Hin) in Hnum. discriminate.
Qed.

(** In the binary game both actions have expected utility 0 under the
    prior: a tie, resolved in favour of "Accept", the first of the list. *)
Lemma best_response_is_first_maximiser_witness :
  exists i a,
    nth_error (actions scenario_2) i = Some a /\
    _get_receiver_optimal_action scenario_2 (prior scenario_2) = Ok (Some a) /\
    (neg_infinity <? 0) = true /\
    (forall j b, nth_error (actions scenario_2) j = Some b -> (j < i)%nat ->
       (0 <? 0) = true \/ Prim2SF 0 = S754_nan) /\
    (forall b, In b (actions scenario_2) -> (0 <? 0) = false) /\
    (forall j b, nth_error (actions scenario_2) j = Some b ->
       (0 =? 0) = true -> (i <= j)%nat).
Proof.
  refine (proj1 (best_response_is_first_maximiser scenario_2
                   (prior scenario_2) (fun _ => 0) _) _).
  - intros a [<-|[<-|[]]]; vm_compute; reflexivity.
  - exists "Accept". split; [left; reflexivity | vm_compute; reflexivity].
Defined.

(** * SchemeEvaluator *)

Lemma set_add_In (s : list key) (k x : key) :
  In x (set_add s k) <-> In x s \/ x = k.
Proof.
  unfold set_add. destruct (mem k s) eqn:E.
  - apply mem_In in E. split; [now left | intros [H| ->]; assumption].
  - rewrite in_app_iff. simpl. intuition.
Qed.

Lemma set_add_NoDup (s : list key) (k : key) :
  NoDup s -> NoDup (set_add s k).
Proof.
  intros H. unfold set_add. destruct (mem k s) eqn:E; [exact H|].
  apply mem_false in E. apply NoDup_app; [exact H | repeat constructor; auto |].
  intros x Hx [<-|[]]. contradiction.
Qed.

Lemma set_update_In (ks s : list key) (x : key) :
  In x (set_update s ks) <-> In x s \/ In x ks.
Proof.
  unfold set_update. revert s. induction ks as [|k ks IH]; intros s; simpl.
  - tauto.
  - rewrite IH, set_add_In. intuition.
Qed.

Lemma set_update_NoDup (ks s : list key) :
  NoDup s -> NoDup (set_update s ks).
Proof.
  unfold set_update. revert s. induction ks as [|k ks IH]; intros s H; simpl.
  - exact H.
  - apply IH. now apply set_add_NoDup.
Qed.





Section Evaluator.

Variable self : BayesianGameSimulator.
Variable sch : scheme.

(** Step 2: the loop stores [a*(m)] for each signal it visits, or raises
    because some [a*(m)] does. *)
Lemma best_response_loop_cache (signals : list key)
  (c0 : dict (option key)) (p0 : dict float) :
  match
    for_each signals
      (fun '(optimal_action_for_signal, prob_of_signal) signal =>
         '(posterior_belief, prob_m) <-
             _calculate_posterior_belief self signal sch ;;
         a <- _get_receiver_optimal_action self posterior_belief ;;
         Ok (setitem optimal_action_for_signal signal a,
             setitem prob_of_signal signal prob_m))
      (c0, p0)
  with
  | Ok (c, _) =>
      (forall m, In m signals ->
         exists a, best_response self sch m = Ok a /\ get c m = Some a) /\
      (forall m, ~ In m signals -> get c m = get c0 m) /\
      keys c = set_update (keys c0) signals
  | Raise _ => exists m, In m signals /\ best_response self sch m = Raise KeyError
  end.
Proof.
  revert c0 p0. induction signals as [|s signals IH]; intros c0 p0; simpl.
  - split; [intros m []|]. split; reflexivity.
  - destruct (_calculate_posterior_belief self s sch) as [[post pm]|[]] eqn:Ec;
      simpl.
    2:{ exists s. split; [now left|]. unfold best_response. now rewrite Ec. }
    destruct (_get_receiver_optimal_action self post) as [a|[]] eqn:Ea; simpl.
    2:{ exists s. split; [now left|]. unfold best_response.
        rewrite Ec. simpl. exact Ea. }
    assert (Hs : best_response self sch s = Ok a).
    { unfold best_response. rewrite Ec. simpl. exact Ea. }
    specialize (IH (setitem c0 s a) (setitem p0 s pm)).
    destruct (for_each signals _ (setitem c0 s a, setitem p0 s pm))
      as [[c pr]|e].
    + destruct IH as (Hin & Hout & Hkeys). split; [|split].
      * intros m [<-|Hm]; [|now apply Hin].
        destruct (in_dec string_dec s signals) as [Hs'|Hs']; [now apply Hin|].
        exists a. split; [exact Hs|]. rewrite Hout by exact Hs'.
        apply get_setitem_same.
      * intros m Hm. rewrite Hout by (intros H; apply Hm; now right).
        apply get_setitem_other. intros ->. apply Hm. now left.
      * rewrite Hkeys, keys_setitem. reflexivity.
    + destruct IH as (m & Hm & Hr). exists m. split; [now right | exact Hr].
Qed.

Lemma best_response_loop_spec (signals : list key) :
  match best_response_loop self signals sch with
  | Ok (c, _) =>
      (forall m, In m signals ->
         exists a, best_response self sch m = Ok a /\ get c m = Some a) /\
      keys c = set_update [] signals
  | Raise _ => exists m, In m signals /\ best_response self sch m = Raise KeyError
  end.
Proof.
  assert (H : match best_response_loop self signals sch with
              | Ok (c, _) =>
                  (forall m, In m signals ->
                     exists a, best_response self sch m = Ok a /\
                               get c m = Some a) /\
                  (forall m, ~ In m signals -> get c m = None) /\
                  keys c = set_update [] signals
              | Raise _ =>
                  exists m, In m signals /\
                            best_response self sch m = Raise KeyError
              end)
    by exact (best_response_loop_cache signals [] []).
  destruct (best_response_loop self signals sch) as [[c pr]|e]; [|exact H].
  destruct H as (Hc & _ & Hk). now split.
Qed.

(** With no state to loop over, neither the posterior nor the selection looks
    anything up. *)
Lemma best_response_no_states (m : key) :
  states self = [] -> exists a, best_response self sch m = Ok a.
Proof.
  intros Hst. unfold best_response, _calculate_posterior_belief,
    prob_signal_loop. rewrite Hst. simpl.
  unfold _get_receiver_optimal_action.
  assert (H : forall acts st, exists st',
            for_each acts (receiver_step self (prior self)) st = Ok st').
  { induction acts as [|a acts IH]; intros st; simpl; [eauto|].
    unfold receiver_step at 1, expected_utility_loop. rewrite Hst. simpl.
    destruct (fst st <? 0); apply IH. }
  destruct (H (actions self) (neg_infinity, None)) as (st' & ->).
  simpl. eauto.
Qed.

(** Step 3, inner loop, read through the cache of step 2. *)
Lemma utility_for_state_loop_sum (signals : list key)
  (c : dict (option key)) (w : key) :
  (forall m, In m signals ->
     exists a, best_response self sch m = Ok a /\ get c m = Some a) ->
  utility_for_state_loop self signals sch c w =
  sender_state_sum self sch signals w.
Proof.
  intros Hc. unfold utility_for_state_loop, sender_state_sum, sigma.
  apply for_each_sum. intros acc m Hm.
  destruct (Hc m Hm) as (a & Ha & Hget).
  rewrite Ha. unfold getitem at 2. rewrite Hget.
  destruct (getitem sch w) as [row|e]; simpl; [|reflexivity].
  destruct (getitem_action (u_s self) a) as [urow|e]; simpl; [|reflexivity].
  destruct (getitem urow w) as [u|e]; reflexivity.
Qed.

Lemma total_loop_sum (signals : list key) (c : dict (option key)) :
  (forall m, In m signals ->
     exists a, best_response self sch m = Ok a /\ get c m = Some a) ->
  total_loop self signals sch c = sender_total self sch signals.
Proof.
  intros Hc. unfold total_loop, sender_total, sigma.
  apply for_each_sum. intros acc w _.
  rewrite (@utility_for_state_loop_sum signals c w Hc).
  destruct (sender_state_sum self sch signals w) as [s|e]; simpl;
    [|reflexivity].
  destruct (getitem (prior self) w) as [p|e]; reflexivity.
Qed.

(** Steps 2 and 3 together compute the double sum of the specification,
    whatever the iteration order of the signals; a [KeyError] of one is a
    [KeyError] of the other. *)
Lemma calculate_over_sender_total (signals : list key) :
  calculate_over self signals sch = sender_total self sch signals.
Proof.
  unfold calculate_over.
  pose proof (best_response_loop_spec signals) as H.
  destruct (best_response_loop self signals sch) as [[c pr]|[]]; simpl.
  - destruct H as (Hc & _). now apply total_loop_sum.
  - destruct H as (m & Hm & Hr). symmetry.
    destruct (states self) as [|w sts] eqn:Hst.
    + destruct (best_response_no_states m Hst) as (a & Ha). congruence.
    + unfold sender_total, sigma. rewrite Hst. simpl.
      replace (sender_state_sum self sch signals w) with
        (@Raise float KeyError); [reflexivity|].
      symmetry. unfold sender_state_sum, sigma.
      apply sum_from_raises with (x := m); [exact Hm|].
      rewrite Hr. destruct (getitem sch w) as [row|[]]; reflexivity.
Qed.

End Evaluator.


(** C5: in the binary game (states Good and Bad, prior one half each,
    the sender gets 1 from Accept and 0 from Reject, the receiver gets 1 from
    Accept when Good, -1 when Bad, and 0 from Reject) the evaluator returns
    exactly 1.0 for the pooling scheme and exactly 0.5 for the fully revealing
    scheme, in whatever order the set of signals is iterated. *)
Theorem binary_game_baselines :
  no_revelation_2 = [("Good", [("NoSignal", 1)]); ("Bad", [("NoSignal", 1)])] /\
  full_revelation_2 = [("Good", [("Good", 1); ("Bad", 0)]);
                       ("Bad", [("Good", 0); ("Bad", 1)])] /\
  calculate_sender_expected_utility scenario_2 no_revelation_2 = Ok 1 /\
  calculate_sender_expected_utility scenario_2 full_revelation_2 = Ok 0.5 /\
  (forall signals, Permutation (signal_set no_revelation_2) signals ->
     calculate_over scenario_2 signals no_revelation_2 = Ok 1) /\
  (forall signals, Permutation (signal_set full_revelation_2) signals ->
     calculate_over scenario_2 signals full_revelation_2 = Ok 0.5).
Proof.
  repeat split; try (vm_compute; reflexivity).
  - intros signals H.
    change (signal_set no_revelation_2) with ["NoSignal"] in H.
    apply Permutation_length_1_inv in H. subst. vm_compute. reflexivity.
  - intros signals H.
    change (signal_set full_revelation_2) with ["Good"; "Bad"] in H.
    apply Permutation_length_2_inv in H.
    destruct H as [->| ->]; vm_compute; reflexivity.
Qed.

(** The quality-control game: full revelation is worth 7.0 to the sender,
    and so is the scheme that separates the low quality from the other two;
    pooling is worth 0.0. *)
Lemma quality_control_baselines :
  calculate_sender_expected_utility scenario_1
    (get_full_revelation_scheme (states scenario_1)) = Ok 7 /\
  calculate_sender_expected_utility scenario_1
    [("High Quality", [("SignalA", 1); ("SignalB", 0)]);
     ("Medium Quality", [("SignalA", 1); ("SignalB", 0)]);
     ("Low Quality", [("SignalA", 0); ("SignalB", 1)])] = Ok 7 /\
  calculate_sender_expected_utility scenario_1
    (get_no_revelation_scheme (states scenario_1)) = Ok 0.
Proof. repeat split; vm_compute; reflexivity. Qed.

(** C6, as the code has it: a scheme whose keys differ from the model's
    states is not refused.  With a row too many the evaluator returns a
    number, and so it does for the empty scheme; in both cases the set of
    signals has at most one element, so its iteration order plays no part. *)
Lemma scheme_mismatch_not_detected :
  set_eqb (keys pooling_with_extra_state) (states scenario_2) = false /\
  signal_set pooling_with_extra_state = ["NoSignal"] /\
  calculate_sender_expected_utility scenario_2 pooling_with_extra_state
  = Ok 1 /\
  set_eqb (keys (@nil (key * dict float))) (states scenario_2) = false /\
  signal_set [] = [] /\
  calculate_sender_expected_utility scenario_2 [] = Ok 0.
Proof. repeat split; vm_compute; reflexivity. Qed.

(** A signal's posterior cannot be computed when a state has no row. *)
Lemma posterior_missing_row (self : BayesianGameSimulator) (sch : scheme)
  (w m : key) :
  In w (states self) -> get sch w = None ->
  _calculate_posterior_belief self m sch = Raise KeyError.
Proof.
  intros Hw Hrow. unfold _calculate_posterior_belief, prob_signal_loop.
  rewrite (@for_each_raises _ _ (states self) _ w); [reflexivity | exact Hw |].
  intros acc. unfold getitem. now rewrite Hrow.
Qed.

(** C6, amended: when the scheme has no row for one of the model's
    states and there is at least one signal to iterate over, the evaluator
    raises [KeyError] (there is no separate mismatch error) and returns no
    number. *)
Theorem missing_state_raises_keyerror (self : BayesianGameSimulator)
  (sch : scheme) (signals : list key) (w : key) :
  In w (states self) -> get sch w = None -> signals <> [] ->
  calculate_over self signals sch = Raise KeyError.
Proof.
  intros Hw Hrow Hne. destruct signals as [|m signals]; [contradiction|].
  unfold calculate_over, best_response_loop. simpl.
  now rewrite (posterior_missing_row self sch w m Hw Hrow).
Qed.

Lemma missing_state_raises_keyerror_witness :
  calculate_over scenario_2 (signal_set scheme_with_missing_state)
    scheme_with_missing_state = Raise KeyError.
Proof.
  apply (@missing_state_raises_keyerror scenario_2 scheme_with_missing_state
           (signal_set scheme_with_missing_state) "Bad").
  - simpl. right. left. reflexivity.
  - reflexivity.
  - discriminate.
Defined.

(** * The validator *)

Lemma validate_rows_accepts (items : scheme) (msg : message) :
  validate_rows items = (true, msg) ->
  forall state signals, In (state, signals) items ->
    signals <> [] /\ sums_to_one (py_sum (values signals)) = true.
Proof.
  induction items as [|[st row] items IH]; intros H state signals Hin;
    [destruct Hin|].
  simpl in H. destruct row as [|entry row]; [discriminate|].
  destruct (sums_to_one (py_sum (values (entry :: row)))) eqn:E;
    simpl in H; [|discriminate].
  destruct Hin as [Heq|Hin]; [|now apply (IH H state signals)].
  injection Heq as <- <-. split; [discriminate | exact E].
Qed.

(** What the validator does check: the keys are the states, no row is empty
    and every row sums to 1.0 within the tolerance.  The sign of the entries
    is not looked at. *)
Lemma validate_llm_scheme_accepts (sch : scheme) (sts : list key)
  (msg : message) :
  validate_llm_scheme sch sts = (true, msg) ->
  set_eqb (keys sch) sts = true /\
  forall state signals, In (state, signals) sch ->
    signals <> [] /\ sums_to_one (py_sum (values signals)) = true.
Proof.
  unfold validate_llm_scheme. intros H.
  destruct (set_eqb (keys sch) sts); simpl in H; [|discriminate].
  split; [reflexivity | now apply (validate_rows_accepts sch msg)].
Qed.

(** C7, at the failing input: the row of "Good" holds the entry -0.5 and
    still sums to 1.0, the validator answers that the scheme is valid, the
    scheme is handed on as it is and the simulator evaluates it to a number,
    in whatever order the two signals are iterated. *)
Theorem validator_accepts_negative_probability :
  get_default (get_default negative_probability_scheme "Good" []) "Reject" 0
  = (-0.5)%float /\
  validate_llm_scheme negative_probability_scheme (states scenario_2)
  = (true, ValidScheme) /\
  get_llm_strategy_parsed negative_probability_scheme (states scenario_2)
  = (Some negative_probability_scheme, true) /\
  llm_run scenario_2 negative_probability_scheme = Some (Ok 1) /\
  (forall signals,
     Permutation (signal_set negative_probability_scheme) signals ->
     calculate_over scenario_2 signals negative_probability_scheme = Ok 1).
Proof.
  repeat split; try (vm_compute; reflexivity).
  intros signals H.
  change (signal_set negative_probability_scheme)
    with ["Accept"; "Reject"] in H.
  apply Permutation_length_2_inv in H.
  destruct H as [->| ->]; vm_compute; reflexivity.
Qed.

(** * No action to choose from *)

(** C8, as the code has it: with an empty action list the selector
    returns [None], a value, and raises nothing. *)
Lemma empty_action_list_returns_none :
  actions game_without_actions = [] /\
  _get_receiver_optimal_action game_without_actions
    (prior game_without_actions) = Ok None.
Proof. split; reflexivity. Qed.

(** C8, amended: with an empty action list [_get_receiver_optimal_action]
    returns [None] for every posterior and raises nothing; the failure comes
    later and is a [KeyError]: as soon as the model has a state and there is
    a signal to iterate over, the evaluator looks up [u_s[None]] (or fails
    earlier on another missing key) and returns no number. *)
Theorem empty_action_list_selects_none (self : BayesianGameSimulator) :
  actions self = [] ->
  (forall posterior, _get_receiver_optimal_action self posterior = Ok None) /\
  (forall sch signals, states self <> [] -> signals <> [] ->
     calculate_over self signals sch = Raise KeyError).
Proof.
  intros Hact.
  assert (Hnone : forall posterior,
            _get_receiver_optimal_action self posterior = Ok None).
  { intros posterior. unfold _get_receiver_optimal_action.
    now rewrite Hact. }
  split; [exact Hnone|].
  intros sch signals Hst Hsig.
  rewrite calculate_over_sender_total.
  destruct (states self) as [|w sts] eqn:Ew; [contradiction|].
  destruct signals as [|m signals]; [contradiction|].
  unfold sender_total, sigma. rewrite Ew. simpl.
  replace (sender_state_sum self sch (m :: signals) w)
    with (@Raise float KeyError); [reflexivity|].
  symmetry. unfold sender_state_sum, sigma.
  apply sum_from_raises with (x := m); [now left|].
  destruct (getitem sch w) as [row|[]]; simpl; [|reflexivity].
  unfold best_response.
  destruct (_calculate_posterior_belief self m sch) as [[post pm]|[]];
    simpl; [|reflexivity].
  rewrite Hnone. reflexivity.
Qed.

Lemma empty_action_list_selects_none_witness :
  (forall posterior,
     _get_receiver_optimal_action game_without_actions posterior = Ok None) /\
  (forall sch signals, states game_without_actions <> [] -> signals <> [] ->
     calculate_over game_without_actions signals sch = Raise KeyError).
Proof.
  apply (empty_action_list_selects_none game_without_actions).
  reflexivity.
Defined.

(** * The pooling scheme *)

Lemma no_revelation_fold (sts : list key) (w : key) :
  forall sch0 : scheme,
  In w sts \/ get sch0 w = Some [(single_signal, 1)] ->
  get (fold_left (fun sch state => setitem sch state [(single_signal, 1)])
         sts sch0) w
  = Some [(single_signal, 1)].
Proof.
  induction sts as [|x sts IH]; intros sch0 H; simpl.
  - destruct H as [[]|H]; exact H.
  - apply IH. destruct (string_dec x w) as [->|Hne].
    + right. apply get_setitem_same.
    + destruct H as [[Hx|Hin]|H]; [contradiction | now left | right].
      now rewrite get_setitem_other.
Qed.

(** Every state's row of the pooling scheme is [{"NoSignal": 1.0}]. *)
Lemma no_revelation_row (sts : list key) (w : key) :
  In w sts ->
  get (get_no_revelation_scheme sts) w = Some [(single_signal, 1)].
Proof.
  intros H. unfold get_no_revelation_scheme. apply no_revelation_fold.
  now left.
Qed.

(** Under the pooling scheme the joint mass of the pooling signal and a
    state is the state's prior mass, bit for bit. *)
Lemma no_revelation_joint (self : BayesianGameSimulator) (w : key) :
  In w (states self) ->
  joint self (get_no_revelation_scheme (states self)) single_signal w
  = getitem (prior self) w.
Proof.
  intros Hw. unfold joint, getitem at 1.
  rewrite (no_revelation_row _ _ Hw). simpl.
  destruct (getitem (prior self) w) as [p|e]; simpl; [|reflexivity].
  unfold get_default. simpl. now rewrite mul_1_l.
Qed.

(** C9, as the code has it: the prior 0.3, 0.6, 0.1 is valid, its masses
    add up to 0.99999999999999989 in binary64, and the posterior of the
    pooling signal differs from the prior in state "A". *)
Lemma pooling_posterior_differs_from_prior :
  prior_valid three_state_game = true /\
  exists posterior mg,
    _calculate_posterior_belief three_state_game single_signal
      (get_no_revelation_scheme (states three_state_game))
    = Ok (posterior, mg) /\
    (mg =? 1) = false /\
    (get_default posterior "A" 0 =? get_default (prior three_state_game) "A" 0)
    = false.
Proof.
  split; [vm_compute; reflexivity|].
  eexists. eexists. split; [vm_compute; reflexivity|].
  split; vm_compute; reflexivity.
Qed.

(** C9, amended: let [mg] be the binary64 sum of the prior masses of the
    states, added in state order.  Under the pooling scheme the posterior of
    the pooling signal is the prior itself when [mg] compares equal to zero;
    otherwise it gives each state [w] the mass [prior[w] / mg], with marginal
    [mg], and it agrees with the prior bit for bit on every state as soon as
    [mg] is exactly 1.0. *)
Theorem pooling_posterior_is_rescaled_prior (self : BayesianGameSimulator)
  (mg : float) :
  sigma (states self) (fun w => getitem (prior self) w) = Ok mg ->
  if mg =? 0 then
    _calculate_posterior_belief self single_signal
      (get_no_revelation_scheme (states self)) = Ok (prior self, 0)
  else
    exists posterior,
      _calculate_posterior_belief self single_signal
        (get_no_revelation_scheme (states self)) = Ok (posterior, mg) /\
      (forall w, In w (states self) ->
         exists p, get (prior self) w = Some p /\
                   get posterior w = Some (p / mg)) /\
      (mg = 1 -> forall w, In w (states self) ->
         get posterior w = get (prior self) w).
Proof.
  intros Hsum.
  assert (Hmg : marginal self (get_no_revelation_scheme (states self))
                  single_signal = Ok mg).
  { unfold marginal. rewrite <- Hsum. unfold sigma.
    apply sum_from_ext. intros w Hw. now apply no_revelation_joint. }
  destruct (mg =? 0) eqn:Ez.
  - now apply (prior_of_zero_marginal self _ single_signal mg).
  - destruct (bayes_posterior_of_marginal self _ single_signal mg Hmg Ez)
      as (post & Hpost & Hin & _).
    assert (Hval : forall w, In w (states self) ->
              exists p, get (prior self) w = Some p /\
                        get post w = Some (p / mg)).
    { intros w Hw. destruct (Hin w Hw) as (row & p & Hrow & Hp & Hget & _).
      rewrite (no_revelation_row _ _ Hw) in Hrow. injection Hrow as <-.
      exists p. split; [exact Hp|]. rewrite Hget.
      unfold get_default. simpl. now rewrite mul_1_l. }
    exists post. split; [exact Hpost|]. split; [exact Hval|].
    intros -> w Hw. destruct (Hval w Hw) as (p & Hp & Hget).
    now rewrite Hget, Hp, div_1_r.
Qed.

Lemma pooling_posterior_is_rescaled_prior_witness :
  exists posterior,
    _calculate_posterior_belief scenario_2 single_signal
      (get_no_revelation_scheme (states scenario_2)) = Ok (posterior, 1) /\
    (forall w, In w (states scenario_2) ->
       exists p, get (prior scenario_2) w = Some p /\
                 get posterior w = Some (p / 1)) /\
    (1 = 1 -> forall w, In w (states scenario_2) ->
       get posterior w = get (prior scenario_2) w).
Proof.
  apply (pooling_posterior_is_rescaled_prior scenario_2 1).
  vm_compute. reflexivity.
Defined.

(** * Rows of states the model does not have *)



Section SameRows.

Variable self : BayesianGameSimulator.
Variables sch sch' : scheme.
Hypothesis same_rows : forall w, In w (states self) -> get sch w = get sch' w.




End SameRows.







Lemma zero_not_neg_zero : ~ is_neg_zero 0.
Proof. unfold is_neg_zero. change (Prim2SF 0) with (S754_zero false). discriminate. Qed.

Section ForeignSignals.

Variable self : BayesianGameSimulator.
Variable sch : scheme.
Variable keep : key -> bool.
Variables (a0 : key) (urow0 : dict float).

Hypothesis rows : covers_states sch self.
Hypothesis foreign :
  forall m w row, keep m = false -> In w (states self) ->
                  get sch w = Some row -> get row m = None.
Hypothesis prior_finite :
  forall w, In w (states self) ->
    exists p, get (prior self) w = Some p /\ is_finite p = true.
Hypothesis prior_response :
  _get_receiver_optimal_action self (prior self) = Ok (Some a0).
Hypothesis response_row : get (u_s self) a0 = Some urow0.
Hypothesis response_finite :
  forall w, In w (states self) ->
    exists u, get urow0 w = Some u /\ is_finite u = true.







End ForeignSignals.



(** * More binary64 facts

    Commutativity of the sum, the neutral +0.0, finiteness, and the exact
    quotients and differences that the metrics and the revealing scheme
    run into. *)

Lemma SFadd_comm (x y : spec_float) :
  SFadd prec emax x y = SFadd prec emax y x.
Proof.
  destruct x as [[]|[]| |sx mx ex], y as [[]|[]| |sy my ey]; try reflexivity.
  simpl. rewrite (Z.min_comm ey ex). f_equal. apply Z.add_comm.
Qed.

Lemma add_comm (x y : float) : x + y = y + x.
Proof.
  apply Prim2SF_inj. rewrite !FloatAxioms.add_spec. apply SFadd_comm.
Qed.

(** Adding to +0.0 changes nothing but the negative zero. *)
Lemma add_zero_l (x : float) : ~ is_neg_zero x -> 0 + x = x.
Proof.
  unfold is_neg_zero. intros Hx. apply Prim2SF_inj.
  rewrite FloatAxioms.add_spec. change (Prim2SF 0) with (S754_zero false).
  destruct (Prim2SF x) as [[]|sx| |sx mx ex]; simpl; try reflexivity.
  congruence.
Qed.

Lemma SFcompare_refl_finite (s : bool) (m : positive) (e : Z) :
  SFcompare (S754_finite s m e) (S754_finite s m e) = Some Eq.
Proof.
  simpl. rewrite Z.compare_refl.
  change (Pos.compare_cont Eq m m) with (Pos.compare m m).
  rewrite Pos.compare_refl. now destruct s.
Qed.

(** [is_finite] holds of the zeros and of the finite floats, and of them
    only. *)
Lemma is_finite_iff (u : float) :
  is_finite u = true <->
  (exists s, Prim2SF u = S754_zero s) \/
  (exists s m e, Prim2SF u = S754_finite s m e).
Proof.
  split; [apply is_finite_spec|].
  unfold is_finite, is_nan, is_infinity.
  rewrite !FloatAxioms.eqb_spec, FloatAxioms.abs_spec.
  intros [(s & ->)|(s & m & e & ->)].
  - reflexivity.
  - unfold SFeqb. rewrite SFcompare_refl_finite. reflexivity.
Qed.

(** A finite sum has finite terms. *)
Lemma add_finite (x y : float) :
  is_finite (x + y) = true -> is_finite x = true /\ is_finite y = true.
Proof.
  rewrite !is_finite_iff, FloatAxioms.add_spec.
  destruct (Prim2SF x) as [sx|sx| |sx mx ex], (Prim2SF y) as [sy|sy| |sy my ey];
    simpl; intros H; split; eauto 6;
    try (destruct H as [(s & H)|(s & m & e & H)]; discriminate H);
    try (destruct sx, sy; destruct H as [(s & H)|(s & m & e & H)];
         discriminate H).
Qed.

(** The difference of a finite float and itself is +0.0. *)
Lemma sub_same (x : float) : is_finite x = true -> x - x = 0.
Proof.
  intros H. apply is_finite_spec in H. apply Prim2SF_inj.
  rewrite FloatAxioms.sub_spec. change (Prim2SF 0) with (S754_zero false).
  destruct H as [(s & ->)|(s & m & e & ->)].
  - now destruct s.
  - unfold SF64sub, SFsub. rewrite Z.sub_diag. reflexivity.
Qed.

(** What compares above zero is a positive finite float or plus infinity. *)
Lemma positive_spec (d : float) :
  (0 <? d) = true ->
  (exists m e, Prim2SF d = S754_finite false m e) \/
  Prim2SF d = S754_infinity false.
Proof.
  rewrite FloatAxioms.ltb_spec. change (Prim2SF 0) with (S754_zero false).
  destruct (Prim2SF d) as [s|[]| |[] m e]; simpl; try discriminate; eauto.
Qed.

(** A zero divided by a positive float is a zero, +0.0 divided by it is
    +0.0. *)
Lemma zero_div_positive (d : float) : (0 <? d) = true -> 0 / d = 0.
Proof.
  intros H. apply positive_spec in H. apply Prim2SF_inj.
  rewrite FloatAxioms.div_spec. change (Prim2SF 0) with (S754_zero false).
  destruct H as [(m & e & ->)| ->]; reflexivity.
Qed.

Lemma zero_div_finite (z p : float) (s : bool) (m : positive) (e : Z) :
  is_zero z -> Prim2SF p = S754_finite s m e -> is_zero (z / p).
Proof.
  unfold is_zero. intros (sz & Hz) Hp.
  rewrite FloatAxioms.div_spec, Hz, Hp. simpl. eauto.
Qed.

(** A finite float other than zero, divided by itself, is 1.0. *)
Lemma div_same (x : float) (s : bool) (m : positive) (e : Z) :
  Prim2SF x = S754_finite s m e -> x / x = 1.
Proof.
  intros Hx. apply Prim2SF_inj. rewrite FloatAxioms.div_spec, Hx.
  change (Prim2SF 1) with (S754_finite false 4503599627370496 (-52)).
  unfold SF64div, SFdiv, SFdiv_core_binary.
  rewrite xorb_nilpotent.
  replace (Zdigits2 (Zpos m) + e - (Zdigits2 (Zpos m) + e))%Z with 0%Z by lia.
  replace (e - e)%Z with 0%Z by lia.
  change (Z.min (fexp prec emax 0) 0) with (-53)%Z.
  change (0 - -53)%Z with 53%Z.
  cbv beta iota.
  rewrite Z.shiftl_mul_pow2 by lia.
  rewrite (Z.mul_comm (Zpos m)).
  rewrite div_eucl_mul by lia.
  assert (Hloc : new_location (Zpos m) 0 = loc_Exact).
  { unfold new_location, new_location_even, new_location_odd.
    destruct (Z.even (Zpos m)); reflexivity. }
  rewrite Hloc. reflexivity.
Qed.

(** A sum within the tolerance of 1.0 is finite: the test fails on NaN and
    on the infinities. *)
Lemma sums_to_one_finite (x : float) :
  sums_to_one x = true -> is_finite x = true.
Proof.
  unfold sums_to_one. rewrite is_finite_iff.
  rewrite FloatAxioms.ltb_spec, FloatAxioms.abs_spec, FloatAxioms.sub_spec.
  change (Prim2SF 1) with (S754_finite false 4503599627370496 (-52)).
  destruct (Prim2SF x) as [s|s| |s m e]; eauto.
  - destruct s; simpl; destruct (Prim2SF 1e-6) as [|[]| |[]]; discriminate.
  - simpl. discriminate.
Qed.

(** The sum of a list is finite only if its start and all its terms are. *)
Lemma fold_add_finite (xs : list float) :
  forall acc, is_finite (fold_left PrimFloat.add xs acc) = true ->
  is_finite acc = true /\ Forall (fun x => is_finite x = true) xs.
Proof.
  induction xs as [|x xs IH]; intros acc H; simpl in *.
  - split; [exact H | constructor].
  - destruct (IH _ H) as (Hacc & Hxs).
    apply add_finite in Hacc. destruct Hacc as (Ha & Hx).
    split; [exact Ha | now constructor].
Qed.


(** * Errors of the simulator *)

Lemma sum_from_all_ok (xs : list key) (f : key -> result float) :
  (forall x, In x xs -> exists t, f x = Ok t) ->
  forall acc, exists v, sum_from acc xs f = Ok v.
Proof.
  induction xs as [|x xs IH]; intros Hdef acc; simpl; [eauto|].
  destruct (Hdef x (or_introl eq_refl)) as (t & ->). simpl.
  apply IH. intros y Hy. apply Hdef. now right.
Qed.

Lemma sum_from_raise_inv (xs : list key) (f : key -> result float) :
  forall acc e, sum_from acc xs f = Raise e ->
  exists x, In x xs /\ f x = Raise KeyError.
Proof.
  induction xs as [|x xs IH]; intros acc e H; simpl in H; [discriminate|].
  destruct (f x) as [t|[]] eqn:E; simpl in H.
  - destruct (IH _ _ H) as (y & Hy & Hr). exists y. split; [now right | exact Hr].
  - exists x. split; [now left | exact E].
Qed.

Lemma for_each_raise_inv (A S : Type) (xs : list A) (f : S -> A -> result S) :
  forall s e, for_each xs f s = Raise e ->
  exists x s', In x xs /\ f s' x = Raise KeyError.
Proof.
  induction xs as [|x xs IH]; intros s e H; simpl in H; [discriminate|].
  destruct (f s x) as [s1|[]] eqn:E; simpl in H.
  - destruct (IH _ _ H) as (y & s' & Hy & Hr).
    exists y, s'. split; [now right | exact Hr].
  - exists x, s. split; [now left | exact E].
Qed.

Lemma joint_raises_iff (self : BayesianGameSimulator) (sch : scheme)
  (m w : key) :
  joint self sch m w = Raise KeyError <->
  get sch w = None \/ get (prior self) w = None.
Proof.
  unfold joint, getitem.
  destruct (get sch w) as [row|]; simpl.
  - destruct (get (prior self) w) as [p|]; simpl; split;
      try discriminate; auto.
    intros [H|H]; discriminate H.
  - split; auto.
Qed.

(** The posterior of a signal is computed unless a state lacks its row or
    its prior mass. *)
Lemma posterior_raises_when (self : BayesianGameSimulator) (sch : scheme)
  (m : key) :
  _calculate_posterior_belief self m sch = Raise KeyError <->
  exists w, In w (states self) /\
            (get sch w = None \/ get (prior self) w = None).
Proof.
  split.
  - intros H. destruct (marginal self sch m) as [mg|e] eqn:Emg.
    + exfalso. destruct (mg =? 0) eqn:Ez.
      * rewrite (prior_of_zero_marginal self sch m mg Emg Ez) in H.
        discriminate.
      * destruct (bayes_posterior_of_marginal self sch m mg Emg Ez)
          as (post & Hpost & _).
        rewrite Hpost in H. discriminate.
    + destruct (sum_from_raise_inv _ _ _ _ Emg) as (w & Hw & Hr).
      exists w. split; [exact Hw | now apply (joint_raises_iff self sch m)].
  - intros (w & Hw & Hmiss).
    unfold _calculate_posterior_belief.
    rewrite prob_signal_loop_marginal. unfold marginal, sigma.
    rewrite (sum_from_raises _ _ w Hw); [reflexivity|].
    now apply joint_raises_iff.
Qed.

(** A posterior that is returned has a mass for every state, whichever
    branch returned it, as soon as the prior has. *)
Lemma posterior_total (self : BayesianGameSimulator) (sch : scheme)
  (m : key) (post : dict float) (pm : float) :
  _calculate_posterior_belief self m sch = Ok (post, pm) ->
  forall w, In w (states self) -> exists p, get post w = Some p.
Proof.
  intros H w Hw. destruct (marginal self sch m) as [mg|e] eqn:Emg.
  - destruct (mg =? 0) eqn:Ez.
    + rewrite (prior_of_zero_marginal self sch m mg Emg Ez) in H.
      injection H as <- _.
      destruct (sum_from_ok _ _ _ _ Emg w Hw) as (j & Hj).
      unfold joint, getitem in Hj.
      destruct (get sch w); [|discriminate].
      destruct (get (prior self) w) as [p|]; [eauto | discriminate].
    + destruct (bayes_posterior_of_marginal self sch m mg Emg Ez)
        as (post' & Hpost & Hin & _).
      rewrite Hpost in H. injection H as <- _.
      destruct (Hin w Hw) as (row & p & _ & _ & Hget & _). eauto.
  - unfold _calculate_posterior_belief in H.
    rewrite prob_signal_loop_marginal, Emg in H. discriminate.
Qed.

(** X1: [_calculate_posterior_belief] raises [KeyError] exactly when some
    state of the model has no row in the scheme or no mass in the prior; in
    every other case it returns a posterior and a marginal, and the posterior
    has a mass for every state of the model. *)
Theorem posterior_raises_exactly_on_missing_state
  (self : BayesianGameSimulator) (sch : scheme) (m : key) :
  (_calculate_posterior_belief self m sch = Raise KeyError <->
   exists w, In w (states self) /\
             (get sch w = None \/ get (prior self) w = None)) /\
  (forall post pm,
     _calculate_posterior_belief self m sch = Ok (post, pm) ->
     forall w, In w (states self) -> exists p, get post w = Some p).
Proof.
  split; [apply posterior_raises_when | apply posterior_total].
Qed.

(** The loop over the actions never stores anything but an action of the
    list. *)
Lemma receiver_loop_listed (self : BayesianGameSimulator)
  (post : dict float) (acts : list key) :
  forall st st',
    for_each acts (receiver_step self post) st = Ok st' ->
    snd st' = snd st \/ exists a, In a acts /\ snd st' = Some a.
Proof.
  induction acts as [|a acts IH]; intros st st' H; simpl in H.
  - injection H as <-. now left.
  - unfold receiver_step at 1 in H.
    destruct (expected_utility_loop self post a) as [eu|e]; simpl in H;
      [|discriminate].
    destruct (fst st <? eu).
    + destruct (IH _ _ H) as [Hsame|(b & Hb & Hsome)].
      * right. exists a. split; [now left | exact Hsame].
      * right. exists b. split; [now right | exact Hsome].
    + destruct (IH _ _ H) as [Hsame|(b & Hb & Hsome)].
      * now left.
      * right. exists b. split; [now right | exact Hsome].
Qed.

Lemma selected_action_listed (self : BayesianGameSimulator)
  (post : dict float) (a : key) :
  _get_receiver_optimal_action self post = Ok (Some a) -> In a (actions self).
Proof.
  unfold _get_receiver_optimal_action. intros H.
  destruct (for_each (actions self) (receiver_step self post)
              (neg_infinity, None)) as [st'|e] eqn:E; [|discriminate].
  simpl in H. injection H as H.
  destruct (receiver_loop_listed self post _ _ _ E) as [Hs|(b & Hb & Hs)];
    rewrite H in Hs; simpl in Hs; [discriminate|].
  injection Hs as ->. exact Hb.
Qed.

(** X2: whatever the posterior and the utilities, NaN and infinities
    included, an action that [_get_receiver_optimal_action] returns is one of
    the model's action list; the only other value it returns is [None]. *)
Theorem selector_returns_listed_action (self : BayesianGameSimulator)
  (post : dict float) (r : option key) :
  _get_receiver_optimal_action self post = Ok r ->
  r = None \/ exists a, r = Some a /\ In a (actions self).
Proof.
  intros H. destruct r as [a|]; [right | now left].
  exists a. split; [reflexivity | now apply (selected_action_listed self post)].
Qed.

Lemma selector_returns_listed_action_witness :
  Some "Accept" = None \/
  exists a, Some "Accept" = Some a /\ In a (actions scenario_2).
Proof.
  apply (selector_returns_listed_action scenario_2 (prior scenario_2)).
  vm_compute. reflexivity.
Defined.

(** The loop over the actions as a fold, when every expected utility is
    defined. *)
Lemma receiver_loop_fold (self : BayesianGameSimulator) (post : dict float)
  (eu : key -> float) (acts : list key) :
  (forall a, In a acts -> EU self post a = Ok (eu a)) ->
  forall st,
    for_each acts (receiver_step self post) st =
    Ok (fold_left
          (fun st a => if fst st <? eu a then (eu a, Some a) else st)
          acts st).
Proof.
  induction acts as [|a acts IH]; intros Hall st; simpl; [reflexivity|].
  unfold receiver_step at 1.
  rewrite expected_utility_loop_EU, (Hall a (or_introl eq_refl)). simpl.
  destruct (fst st <? eu a); apply IH; intros b Hb; apply Hall; now right.
Qed.

Lemma fold_keeps_some (eu : key -> float) (acts : list key) :
  forall (mx : float) (a : key),
  exists mx' a',
    fold_left (fun st a => if fst st <? eu a then (eu a, Some a) else st)
      acts (mx, Some a) = (mx', Some a').
Proof.
  induction acts as [|b acts IH]; intros mx a; simpl; [eauto|].
  destruct (mx <? eu b); apply IH.
Qed.

Lemma fold_none_iff (eu : key -> float) (acts : list key) :
  snd (fold_left (fun st a => if fst st <? eu a then (eu a, Some a) else st)
         acts (neg_infinity, None)) = None <->
  forall a, In a acts -> (neg_infinity <? eu a) = false.
Proof.
  induction acts as [|b acts IH]; simpl.
  - split; [intros _ a [] | reflexivity].
  - destruct (neg_infinity <? eu b) eqn:E.
    + split.
      * destruct (fold_keeps_some eu acts (eu b) b) as (mx' & a' & ->).
        discriminate.
      * intros H. rewrite (H b (or_introl eq_refl)) in E. discriminate.
    + rewrite IH. split.
      * intros H a [<-|Ha]; [exact E | now apply H].
      * intros H a Ha. apply H. now right.
Qed.

(** X3: when the expected utility of every action is defined,
    [_get_receiver_optimal_action] returns [None] exactly when no expected
    utility compares above minus infinity, that is when the action list is
    empty or every expected utility is NaN or minus infinity. *)
Theorem selector_returns_none_exactly (self : BayesianGameSimulator)
  (post : dict float) (eu : key -> float) :
  (forall a, In a (actions self) -> EU self post a = Ok (eu a)) ->
  (_get_receiver_optimal_action self post = Ok None <->
   forall a, In a (actions self) -> (neg_infinity <? eu a) = false).
Proof.
  intros Hall. unfold _get_receiver_optimal_action.
  rewrite (receiver_loop_fold self post eu _ Hall). simpl.
  rewrite <- fold_none_iff. split.
  - intros H. now injection H.
  - intros ->. reflexivity.
Qed.

Lemma selector_returns_none_exactly_witness :
  _get_receiver_optimal_action game_with_infinite_loss
    (prior game_with_infinite_loss) = Ok None <->
  forall a, In a (actions game_with_infinite_loss) ->
            (neg_infinity <? neg_infinity) = false.
Proof.
  apply (selector_returns_none_exactly game_with_infinite_loss
           (prior game_with_infinite_loss) (fun _ => neg_infinity)).
  intros a [<-|[]]. vm_compute. reflexivity.
Defined.

Lemma eu_term_raises_iff (self : BayesianGameSimulator) (post : dict float)
  (a w : key) :
  (urow <- getitem (u_r self) a ;;
   u <- getitem urow w ;;
   p <- getitem post w ;;
   Ok (u * p)) = Raise KeyError <->
  get (u_r self) a = None \/
  (exists urow, get (u_r self) a = Some urow /\ get urow w = None) \/
  get post w = None.
Proof.
  unfold getitem.
  destruct (get (u_r self) a) as [urow|]; simpl; [|split; auto].
  destruct (get urow w) as [u|] eqn:Eu; simpl.
  - destruct (get post w) as [p|]; simpl; split; auto; try discriminate.
    intros [H|[(r & Hr & Hn)|H]]; try discriminate.
    injection Hr as <-. congruence.
  - split; [|reflexivity]. intros _. right. left. eauto.
Qed.

(** The selector raises when an entry it reads is missing, and only then. *)
Lemma selector_raises_when (self : BayesianGameSimulator)
  (post : dict float) :
  _get_receiver_optimal_action self post = Raise KeyError <->
  exists a w,
    In a (actions self) /\ In w (states self) /\
    (get (u_r self) a = None \/
     (exists urow, get (u_r self) a = Some urow /\ get urow w = None) \/
     get post w = None).
Proof.
  unfold _get_receiver_optimal_action. split.
  - intros H.
    destruct (for_each (actions self) (receiver_step self post)
                (neg_infinity, None)) as [st|e] eqn:E; [discriminate|].
    destruct (for_each_raise_inv _ _ _ _ _ _ E) as (a & st' & Ha & Hr).
    unfold receiver_step in Hr. rewrite expected_utility_loop_EU in Hr.
    destruct (EU self post a) as [eu|e'] eqn:Eeu.
    + simpl in Hr. destruct (fst st' <? eu); discriminate.
    + destruct (sum_from_raise_inv _ _ _ _ Eeu) as (w & Hw & Hterm).
      exists a, w. split; [exact Ha|]. split; [exact Hw|].
      now apply eu_term_raises_iff.
  - intros (a & w & Ha & Hw & Hmiss).
    rewrite (for_each_raises _ _ _ _ a Ha); [reflexivity|].
    intros st. unfold receiver_step. rewrite expected_utility_loop_EU.
    unfold EU, sigma. rewrite (sum_from_raises _ _ w Hw); [reflexivity|].
    now apply eu_term_raises_iff.
Qed.

(** X4: [_get_receiver_optimal_action] raises [KeyError] exactly when, for
    some action and some state of the model, the receiver's table has no row
    for the action, that row has no entry for the state, or the posterior has
    no mass for the state; with no state, or no action, it raises nothing. *)
Theorem selector_raises_exactly_on_missing_entry
  (self : BayesianGameSimulator) (post : dict float) :
  _get_receiver_optimal_action self post = Raise KeyError <->
  exists a w,
    In a (actions self) /\ In w (states self) /\
    (get (u_r self) a = None \/
     (exists urow, get (u_r self) a = Some urow /\ get urow w = None) \/
     get post w = None).
Proof. exact (selector_raises_when self post). Qed.

(** * The iteration order of the signals *)



(** * When the evaluator returns a number *)

Lemma best_response_defined (self : BayesianGameSimulator) (sch : scheme)
  (m : key) :
  covers_states sch self -> tables_total self ->
  exists r, best_response self sch m = Ok r.
Proof.
  intros Hrows (Hprior & Hur & _). unfold best_response.
  destruct (_calculate_posterior_belief self m sch) as [[post pm]|[]] eqn:E.
  - simpl.
    destruct (_get_receiver_optimal_action self post) as [r|[]] eqn:Er;
      [eauto|].
    exfalso.
    apply selector_raises_when in Er.
    destruct Er as (a & w & Ha & Hw & Hmiss).
    destruct (Hur a w Ha Hw) as (urow & u & Hrow & Hu).
    destruct (posterior_total self sch m post pm E w Hw) as (p & Hp).
    destruct Hmiss as [H|[(urow' & H1 & H2)|H]]; congruence.
  - exfalso. apply posterior_raises_when in E.
    destruct E as (w & Hw & [H|H]).
    + destruct (Hrows w Hw) as (row & Hrow). congruence.
    + destruct (Hprior w Hw) as (p & Hp). congruence.
Qed.

Lemma best_response_listed (self : BayesianGameSimulator) (sch : scheme)
  (m a : key) :
  best_response self sch m = Ok (Some a) -> In a (actions self).
Proof.
  unfold best_response. intros H.
  destruct (_calculate_posterior_belief self m sch) as [[post pm]|e];
    [|discriminate].
  simpl in H. now apply (selected_action_listed self post).
Qed.

(** X6: for a scheme with a row for every state and a model whose prior and
    utility tables are complete, with at least one state, the evaluator
    returns a number exactly when the receiver's selector finds an action for
    every signal that is iterated; one signal answered by [None] makes the
    whole evaluation a [KeyError]. *)
Theorem evaluator_returns_number_exactly (self : BayesianGameSimulator)
  (sch : scheme) (signals : list key) :
  covers_states sch self -> tables_total self -> states self <> [] ->
  ((exists v, calculate_over self signals sch = Ok v) <->
   forall m, In m signals -> best_response self sch m <> Ok None).
Proof.
  intros Hrows Htot Hst. rewrite calculate_over_sender_total. split.
  - intros (v & Hv) m Hm Hnone.
    destruct (states self) as [|w sts] eqn:Ew; [contradiction|].
    unfold sender_total, sigma in Hv. rewrite Ew in Hv. simpl in Hv.
    replace (sender_state_sum self sch signals w)
      with (@Raise float KeyError) in Hv; [discriminate|].
    symmetry. unfold sender_state_sum, sigma.
    apply sum_from_raises with (x := m); [exact Hm|].
    rewrite Hnone. destruct (getitem sch w) as [row|[]]; reflexivity.
  - intros Hsome. unfold sender_total, sigma.
    apply sum_from_all_ok. intros w Hw.
    destruct Htot as (Hprior & Hur & Hus).
    assert (Hsum : exists s, sender_state_sum self sch signals w = Ok s).
    { unfold sender_state_sum, sigma. apply sum_from_all_ok. intros m Hm.
      destruct (Hrows w Hw) as (row & Hrow).
      destruct (best_response_defined self sch m Hrows
                  (conj Hprior (conj Hur Hus))) as (r & Hr).
      destruct r as [a|]; [|destruct (Hsome m Hm Hr)].
      destruct (Hus a w (best_response_listed self sch m a Hr) Hw)
        as (urow & u & Hurow & Hu).
      unfold getitem. rewrite Hrow, Hr. simpl.
      unfold getitem. rewrite Hurow. simpl. rewrite Hu. simpl. eauto. }
    destruct Hsum as (sv & ->). simpl.
    destruct (Hprior w Hw) as (p & Hp). unfold getitem. rewrite Hp.
    simpl. eauto.
Qed.

Lemma evaluator_returns_number_exactly_witness :
  (exists v, calculate_over scenario_2 ["Good"; "Bad"] full_revelation_2
             = Ok v) <->
  forall m, In m ["Good"; "Bad"] ->
            best_response scenario_2 full_revelation_2 m <> Ok None.
Proof.
  apply (evaluator_returns_number_exactly scenario_2 full_revelation_2).
  - intros w [<-|[<-|[]]]; eexists; reflexivity.
  - split; [|split].
    + intros w [<-|[<-|[]]]; eexists; reflexivity.
    + intros a w [<-|[<-|[]]] [<-|[<-|[]]]; eexists; eexists;
        split; reflexivity.
    + intros a w [<-|[<-|[]]] [<-|[<-|[]]]; eexists; eexists;
        split; reflexivity.
  - discriminate.
Defined.

(** * The baseline schemes *)

Lemma set_add_map (V : Type) (f : key -> V) (ks : list key) (x : key) :
  setitem (map (fun k => (k, f k)) ks) x (f x) =
  map (fun k => (k, f k)) (set_add ks x).
Proof.
  unfold set_add. induction ks as [|k ks IH]; simpl; [reflexivity|].
  rewrite (String.eqb_sym x k).
  destruct (String.eqb_spec k x) as [->|Hne]; simpl; [reflexivity|].
  rewrite IH. fold (mem x ks). destruct (mem x ks); simpl;
    [reflexivity | now rewrite map_app].
Qed.

(** A dictionary filled key by key with a value that depends on the key
    only: its keys are the keys given, each once, in the order of their first
    occurrence. *)
Lemma fold_setitem_map (V : Type) (f : key -> V) (xs ks : list key) :
  fold_left (fun d x => setitem d x (f x)) xs (map (fun k => (k, f k)) ks) =
  map (fun k => (k, f k)) (set_update ks xs).
Proof.
  unfold set_update. revert ks. induction xs as [|x xs IH]; intros ks; simpl.
  - reflexivity.
  - rewrite set_add_map. apply IH.
Qed.

Lemma fold_left_ext (A B : Type) (f g : A -> B -> A) (xs : list B) :
  (forall a x, f a x = g a x) ->
  forall a, fold_left f xs a = fold_left g xs a.
Proof.
  intros H. induction xs as [|x xs IH]; intros a; simpl; [reflexivity|].
  rewrite H. apply IH.
Qed.

(** The fully revealing scheme, row by row: the states without repetition,
    each with the row that gives 1.0 to its own name and 0.0 to the others. *)
Lemma full_revelation_map (sts : list key) :
  get_full_revelation_scheme sts =
  map (fun w =>
         (w, map (fun m => (m, if String.eqb w m then 1 else 0))
               (set_update [] sts)))
    (set_update [] sts).
Proof.
  unfold get_full_revelation_scheme.
  set (F := fun w : key =>
              map (fun m => (m, if String.eqb w m then 1 else 0))
                (set_update [] sts)).
  transitivity (fold_left (fun d x => setitem d x (F x)) sts []).
  - apply fold_left_ext. intros sch w. f_equal.
    exact (fold_setitem_map _ (fun m => if String.eqb w m then 1 else 0)
             sts []).
  - exact (fold_setitem_map _ F sts []).
Qed.

Lemma no_revelation_map (sts : list key) :
  get_no_revelation_scheme sts =
  map (fun w => (w, [(single_signal, 1)])) (set_update [] sts).
Proof.
  unfold get_no_revelation_scheme.
  exact (fold_setitem_map _ (fun _ => [(single_signal, 1)]) sts []).
Qed.

Lemma set_update_nil_In (sts : list key) (x : key) :
  In x (set_update [] sts) <-> In x sts.
Proof. rewrite set_update_In. simpl. tauto. Qed.

Lemma set_eqb_true (xs ys : list key) :
  set_eqb xs ys = true <-> (forall x, In x xs <-> In x ys).
Proof.
  unfold set_eqb. rewrite andb_true_iff, !forallb_forall. split.
  - intros (H1 & H2) x. split; intros Hx.
    + apply mem_In. now apply H1.
    + apply mem_In. now apply H2.
  - intros H. split; intros x Hx; apply mem_In; now apply H.
Qed.

Lemma keys_map (V : Type) (f : key -> V) (ks : list key) :
  keys (map (fun k => (k, f k)) ks) = ks.
Proof.
  unfold keys. rewrite map_map. simpl. apply map_id.
Qed.

Lemma values_map (V : Type) (f : key -> V) (ks : list key) :
  values (map (fun k => (k, f k)) ks) = map f ks.
Proof.
  unfold values. rewrite map_map. reflexivity.
Qed.

Lemma get_map (V : Type) (f : key -> V) (ks : list key) (k : key) :
  get (map (fun k => (k, f k)) ks) k = if mem k ks then Some (f k) else None.
Proof.
  induction ks as [|d ks IH]; simpl; [reflexivity|].
  rewrite (String.eqb_sym k d).
  destruct (String.eqb d k) eqn:E; simpl.
  - apply String.eqb_eq in E. now subst.
  - apply IH.
Qed.

(** Every row passes: the loop over the items runs to its end. *)
Lemma validate_rows_all (items : scheme) :
  (forall state signals, In (state, signals) items ->
     signals <> [] /\ sums_to_one (py_sum (values signals)) = true) ->
  validate_rows items = (true, ValidScheme).
Proof.
  induction items as [|[st row] items IH]; intros H; simpl; [reflexivity|].
  destruct (H st row (or_introl eq_refl)) as (Hne & Hsum).
  destruct row as [|entry row]; [contradiction|].
  rewrite Hsum. simpl. apply IH. intros s r Hin. apply (H s r). now right.
Qed.

(** The sum of a row of zeros with at most one 1.0 among them. *)
Lemma sum_indicator (w : key) (ks : list key) :
  NoDup ks ->
  fold_left PrimFloat.add
    (map (fun m => if String.eqb w m then 1 else 0) ks) 0
  = if mem w ks then 1 else 0.
Proof.
  assert (Hone : forall ks, ~ In w ks ->
            fold_left PrimFloat.add
              (map (fun m => if String.eqb w m then 1 else 0) ks) 1 = 1).
  { induction ks0 as [|k ks0 IH]; intros Hw; simpl; [reflexivity|].
    destruct (String.eqb_spec w k) as [->|Hne].
    - exfalso. apply Hw. now left.
    - change (1 + 0) with 1. apply IH. intros H. apply Hw. now right. }
  induction ks as [|k ks IH]; intros Hnd; simpl; [reflexivity|].
  inversion Hnd as [|? ? Hk Hnd']; subst.
  destruct (String.eqb_spec w k) as [->|Hne]; simpl.
  - change (0 + 1) with 1. now apply Hone.
  - change (0 + 0) with 0. now apply IH.
Qed.

Lemma set_update_nil_NoDup (sts : list key) : NoDup (set_update [] sts).
Proof. apply set_update_NoDup. constructor. Qed.

(** The fully revealing scheme passes the validator, entry by entry. *)
Lemma full_revelation_accepted (sts : list key) :
  validate_llm_scheme (get_full_revelation_scheme sts) sts
  = (true, ValidScheme) /\
  (forall w m, In w sts -> In m sts ->
     lookup2 (get_full_revelation_scheme sts) w m
     = Some (if String.eqb w m then 1 else 0)) /\
  (forall w m, ~ (In w sts /\ In m sts) ->
     lookup2 (get_full_revelation_scheme sts) w m = None).
Proof.
  rewrite full_revelation_map.
  set (D := set_update [] sts).
  assert (HD : forall x, In x D <-> In x sts) by apply set_update_nil_In.
  assert (Hget : forall (V : Type) (f : key -> V) k,
            get (map (fun k => (k, f k)) D) k
            = if mem k D then Some (f k) else None)
    by (intros V f k; apply get_map).
  split; [|split].
  - unfold validate_llm_scheme. rewrite keys_map.
    assert (Heq : set_eqb D sts = true) by (apply set_eqb_true; exact HD).
    rewrite Heq. simpl. apply validate_rows_all.
    intros w row Hin. apply in_map_iff in Hin.
    destruct Hin as (w' & Heq' & Hw'). injection Heq' as <- <-.
    split.
    + destruct D; [destruct Hw' | discriminate].
    + rewrite values_map. unfold py_sum.
      rewrite sum_indicator by apply set_update_nil_NoDup.
      fold D. apply mem_In in Hw'. rewrite Hw'. vm_compute. reflexivity.
  - intros w m Hw Hm. unfold lookup2. rewrite Hget.
    apply HD, mem_In in Hw. rewrite Hw. rewrite Hget.
    apply HD, mem_In in Hm. now rewrite Hm.
  - intros w m Hnot. unfold lookup2. rewrite Hget.
    destruct (mem w D) eqn:Ew; [|reflexivity].
    rewrite Hget. destruct (mem m D) eqn:Em; [|reflexivity].
    exfalso. apply Hnot. split; apply HD, mem_In; assumption.
Qed.

(** X7: whatever the list of states, repeated names included,
    [get_full_revelation_scheme] builds a scheme that [validate_llm_scheme]
    accepts for that list: its keys are the states, and the row of each
    state holds 1.0 for the signal named like the state and 0.0 for every
    other state name, so that it sums to exactly 1.0. *)
Theorem full_revelation_is_valid (sts : list key) :
  validate_llm_scheme (get_full_revelation_scheme sts) sts
  = (true, ValidScheme) /\
  (forall w m, In w sts -> In m sts ->
     lookup2 (get_full_revelation_scheme sts) w m
     = Some (if String.eqb w m then 1 else 0)) /\
  (forall w m, ~ (In w sts /\ In m sts) ->
     lookup2 (get_full_revelation_scheme sts) w m = None).
Proof. exact (full_revelation_accepted sts). Qed.

(** X8: whatever the list of states, [get_no_revelation_scheme] builds a
    scheme that [validate_llm_scheme] accepts for that list: every state has
    the row [{"NoSignal": 1.0}], no other key has a row, and the set of
    signals is the single pooling signal as soon as there is a state. *)
Theorem no_revelation_is_valid (sts : list key) :
  validate_llm_scheme (get_no_revelation_scheme sts) sts
  = (true, ValidScheme) /\
  (forall w, In w sts ->
     get (get_no_revelation_scheme sts) w = Some [(single_signal, 1)]) /\
  (forall w, ~ In w sts -> get (get_no_revelation_scheme sts) w = None) /\
  (sts <> [] -> signal_set (get_no_revelation_scheme sts) = [single_signal]).
Proof.
  split; [|split; [apply no_revelation_row|split]].
  - rewrite no_revelation_map. unfold validate_llm_scheme.
    rewrite keys_map.
    assert (Heq : set_eqb (set_update [] sts) sts = true)
      by (apply set_eqb_true; apply set_update_nil_In).
    rewrite Heq. simpl. apply validate_rows_all.
    intros w row Hin. apply in_map_iff in Hin.
    destruct Hin as (w' & Heq' & _). injection Heq' as <- <-.
    split; [discriminate | vm_compute; reflexivity].
  - intros w Hw. rewrite no_revelation_map.
    destruct (get _ w) as [row|] eqn:E; [|reflexivity].
    apply get_in_keys in E. rewrite keys_map in E.
    apply (proj1 (set_update_nil_In sts w)) in E. contradiction.
  - intros Hne. rewrite no_revelation_map. unfold signal_set.
    rewrite values_map.
    destruct (set_update [] sts) as [|d D] eqn:ED.
    + destruct sts as [|x sts']; [contradiction|].
      assert (Hx : In x (set_update [] (x :: sts')))
        by (apply set_update_nil_In; now left).
      rewrite ED in Hx. destruct Hx.
    + simpl. clear ED. induction D as [|d' D IH]; simpl; [reflexivity|].
      exact IH.
Qed.

Lemma full_revelation_entry (sts : list key) (w m : key) :
  In w sts -> In m sts ->
  exists row,
    get (get_full_revelation_scheme sts) w = Some row /\
    get_default row m 0 = if String.eqb w m then 1 else 0.
Proof.
  intros Hw Hm. rewrite full_revelation_map, get_map.
  apply set_update_nil_In, mem_In in Hw. rewrite Hw.
  eexists. split; [reflexivity|].
  unfold get_default. rewrite get_map.
  apply set_update_nil_In, mem_In in Hm. now rewrite Hm.
Qed.

(** A sum whose terms are zeros, but for the term of [m] at most. *)
Lemma sum_from_point (term : key -> result float) (m : key) (pm : float) :
  ~ is_neg_zero pm ->
  forall ws,
    NoDup ws ->
    (forall w, In w ws -> w <> m -> exists z, term w = Ok z /\ is_zero z) ->
    (In m ws -> term m = Ok pm) ->
    sum_from 0 ws term = Ok (if mem m ws then pm else 0).
Proof.
  intros Hpm.
  assert (Hrest : forall ws acc,
            ~ is_neg_zero acc -> ~ In m ws ->
            (forall w, In w ws -> w <> m ->
               exists z, term w = Ok z /\ is_zero z) ->
            sum_from acc ws term = Ok acc).
  { induction ws as [|k ws IH]; intros acc Hacc Hm Hz; simpl; [reflexivity|].
    destruct (Hz k (or_introl eq_refl)) as (z & -> & Hzero).
    { intros ->. apply Hm. now left. }
    simpl. rewrite (add_zero_r acc z Hzero Hacc).
    apply IH; [exact Hacc | intros H; apply Hm; now right |].
    intros w Hw. apply Hz. now right. }
  induction ws as [|k ws IH]; intros Hnd Hz Hmt; simpl; [reflexivity|].
  inversion Hnd as [|? ? Hk Hnd']; subst.
  rewrite (String.eqb_sym m k).
  destruct (String.eqb_spec k m) as [->|Hne]; simpl.
  - rewrite (Hmt (or_introl eq_refl)). simpl.
    rewrite (add_zero_l pm Hpm).
    apply Hrest; [exact Hpm | exact Hk |].
    intros w Hw. apply Hz. now right.
  - destruct (Hz k (or_introl eq_refl) Hne) as (z & -> & Hzero). simpl.
    rewrite (add_zero_r 0 z Hzero zero_not_neg_zero).
    apply IH; [exact Hnd' | intros w Hw; apply Hz; now right |].
    intros Hm. apply Hmt. now right.
Qed.

Lemma finite_nonzero (p : float) :
  is_finite p = true -> (p =? 0) = false ->
  exists s m e, Prim2SF p = S754_finite s m e.
Proof.
  intros Hfin Hnz. apply is_finite_spec in Hfin.
  destruct Hfin as [Hzero|H]; [|exact H].
  rewrite (is_zero_eqb p Hzero) in Hnz. discriminate.
Qed.

(** X9: for a model whose states are listed once each and whose prior
    masses are finite, a signal of the fully revealing scheme that names a
    state of nonzero prior mass has that mass, bit for bit, as its marginal,
    and its posterior is a point mass: exactly 1.0 on the state named and a
    zero on every other state. *)
Theorem full_revelation_posterior_is_point_mass
  (self : BayesianGameSimulator) (m : key) (pm : float) :
  NoDup (states self) ->
  (forall w, In w (states self) ->
     exists p, get (prior self) w = Some p /\ is_finite p = true) ->
  In m (states self) ->
  get (prior self) m = Some pm -> (pm =? 0) = false ->
  exists posterior,
    _calculate_posterior_belief self m
      (get_full_revelation_scheme (states self)) = Ok (posterior, pm) /\
    get posterior m = Some 1 /\
    (forall w, In w (states self) -> w <> m ->
       exists z, get posterior w = Some z /\ is_zero z).
Proof.
  intros Hnd Hprior Hm Hpm Hnz.
  destruct (Hprior m Hm) as (pm' & Hpm' & Hfin).
  assert (pm' = pm) by congruence. subst pm'.
  destruct (finite_nonzero pm Hfin Hnz) as (s & mm & e & Hsf).
  assert (Hnn : ~ is_neg_zero pm)
    by (unfold is_neg_zero; rewrite Hsf; discriminate).
  set (sch := get_full_revelation_scheme (states self)).
  assert (Hjoint : forall w, In w (states self) ->
            exists p, get (prior self) w = Some p /\ is_finite p = true /\
                      joint self sch m w
                      = Ok ((if String.eqb w m then 1 else 0) * p)).
  { intros w Hw. destruct (Hprior w Hw) as (p & Hp & Hf).
    destruct (full_revelation_entry (states self) w m Hw Hm)
      as (row & Hrow & Hval).
    exists p. split; [exact Hp|]. split; [exact Hf|].
    unfold joint, getitem. fold sch in Hrow. rewrite Hrow, Hp. simpl.
    now rewrite Hval. }
  assert (Hmg : marginal self sch m = Ok pm).
  { unfold marginal, sigma.
    rewrite (sum_from_point (joint self sch m) m pm Hnn (states self) Hnd).
    - apply mem_In in Hm. now rewrite Hm.
    - intros w Hw Hne. destruct (Hjoint w Hw) as (p & _ & Hf & ->).
      destruct (String.eqb_spec w m) as [->|_]; [contradiction|].
      exists (0 * p). split; [reflexivity | now apply mul_zero_finite].
    - intros _. destruct (Hjoint m Hm) as (p & Hp & _ & ->).
      rewrite String.eqb_refl, mul_1_l. congruence. }
  destruct (bayes_posterior_of_marginal self sch m pm Hmg Hnz)
    as (post & Hpost & Hin & _).
  exists post. split; [exact Hpost|]. split.
  - destruct (Hin m Hm) as (row & p & Hrow & Hp & Hget & _).
    destruct (full_revelation_entry (states self) m m Hm Hm)
      as (row' & Hrow' & Hval).
    fold sch in Hrow'. assert (row' = row) by congruence. subst row'.
    rewrite Hget, Hval, String.eqb_refl, mul_1_l.
    assert (p = pm) by congruence. subst p.
    now rewrite (div_same pm s mm e Hsf).
  - intros w Hw Hne.
    destruct (Hin w Hw) as (row & p & Hrow & Hp & Hget & _).
    destruct (full_revelation_entry (states self) w m Hw Hm)
      as (row' & Hrow' & Hval).
    fold sch in Hrow'. assert (row' = row) by congruence. subst row'.
    destruct (Hprior w Hw) as (p' & Hp' & Hf).
    assert (p' = p) by congruence. subst p'.
    exists (0 * p / pm). split.
    + rewrite Hget, Hval.
      destruct (String.eqb_spec w m) as [->|_]; [contradiction | reflexivity].
    + apply (zero_div_finite (0 * p) pm s mm e);
        [now apply mul_zero_finite | exact Hsf].
Qed.

Lemma full_revelation_posterior_is_point_mass_witness :
  exists posterior,
    _calculate_posterior_belief scenario_2 "Good"
      (get_full_revelation_scheme (states scenario_2)) = Ok (posterior, 0.5) /\
    get posterior "Good" = Some 1 /\
    (forall w, In w (states scenario_2) -> w <> "Good" ->
       exists z, get posterior w = Some z /\ is_zero z).
Proof.
  apply (full_revelation_posterior_is_point_mass scenario_2 "Good" 0.5).
  - repeat constructor; simpl; intuition discriminate.
  - intros w [<-|[<-|[]]]; eexists; split; reflexivity.
  - now left.
  - reflexivity.
  - reflexivity.
Defined.

(** * What the validator guarantees *)

(** X10: [validate_llm_scheme] accepts a scheme exactly when its keys are
    the states as a set, no row is empty and the entries of every row, added
    in the order of the row, sum to 1.0 within 1e-6; the message of an
    accepted scheme is the one of validity, and keys that are not the states
    are reported as such whatever the rows hold. *)
Theorem validator_accepts_exactly (sch : scheme) (sts : list key) :
  (validate_llm_scheme sch sts = (true, ValidScheme) <->
   set_eqb (keys sch) sts = true /\
   forall state signals, In (state, signals) sch ->
     signals <> [] /\ sums_to_one (py_sum (values signals)) = true) /\
  (forall msg, validate_llm_scheme sch sts = (true, msg) ->
     msg = ValidScheme) /\
  (set_eqb (keys sch) sts = false ->
   validate_llm_scheme sch sts = (false, KeysDoNotMatch)).
Proof.
  split; [split|split].
  - apply validate_llm_scheme_accepts.
  - intros (Hkeys & Hrows). unfold validate_llm_scheme. rewrite Hkeys.
    simpl. now apply validate_rows_all.
  - intros msg H.
    destruct (validate_llm_scheme_accepts sch sts msg H) as (Hkeys & Hrows).
    unfold validate_llm_scheme in H. rewrite Hkeys in H. simpl in H.
    rewrite (validate_rows_all sch Hrows) in H. now injection H.
  - intros Hkeys. unfold validate_llm_scheme. now rewrite Hkeys.
Qed.

(** X11: every entry of a scheme that [validate_llm_scheme] accepts is a
    finite float: a NaN or an infinity anywhere in a row makes the sum of the
    row fail the tolerance test.  (The sign of the entries is not
    constrained.) *)
Theorem accepted_entries_are_finite (sch : scheme) (sts : list key)
  (msg : message) :
  validate_llm_scheme sch sts = (true, msg) ->
  forall state signals signal p,
    In (state, signals) sch -> In (signal, p) signals ->
    is_finite p = true.
Proof.
  intros H state signals signal p Hrow Hp.
  destruct (validate_llm_scheme_accepts sch sts msg H) as (_ & Hrows).
  destruct (Hrows state signals Hrow) as (_ & Hsum).
  apply sums_to_one_finite in Hsum. unfold py_sum in Hsum.
  apply fold_add_finite in Hsum. destruct Hsum as (_ & Hall).
  rewrite Forall_forall in Hall. apply Hall.
  unfold values. change p with (snd (signal, p)). now apply in_map.
Qed.

Lemma accepted_entries_are_finite_witness : is_finite (-0.5) = true.
Proof.
  apply (accepted_entries_are_finite negative_probability_scheme
           (states scenario_2) ValidScheme)
    with (state := "Good") (signals := [("Accept", 1.5); ("Reject", -0.5)])
         (signal := "Reject").
  - vm_compute. reflexivity.
  - left. reflexivity.
  - right. left. reflexivity.
Defined.

Lemma get_of_key (V : Type) (d : dict V) (k : key) :
  In k (keys d) -> exists v, get d k = Some v.
Proof.
  induction d as [|[k' v'] d IH]; simpl; [intros []|].
  destruct (String.eqb_spec k' k) as [->|Hne]; [eauto|].
  intros [H|H]; [contradiction | now apply IH].
Qed.

(** X12: a scheme that [validate_llm_scheme] accepts for the states of a
    model has a row for each of them, so that, the prior having a mass for
    every state, [_calculate_posterior_belief] returns a posterior and a
    marginal for every signal whatsoever and never raises [KeyError]. *)
Theorem accepted_scheme_has_posteriors (self : BayesianGameSimulator)
  (sch : scheme) (msg : message) :
  validate_llm_scheme sch (states self) = (true, msg) ->
  (forall w, In w (states self) -> exists p, get (prior self) w = Some p) ->
  covers_states sch self /\
  forall m, exists posterior pm,
    _calculate_posterior_belief self m sch = Ok (posterior, pm).
Proof.
  intros H Hprior.
  destruct (validate_llm_scheme_accepts sch _ msg H) as (Hkeys & _).
  assert (Hrows : covers_states sch self).
  { intros w Hw. apply get_of_key.
    apply (proj1 (set_eqb_true _ _) Hkeys). exact Hw. }
  split; [exact Hrows|]. intros m.
  destruct (_calculate_posterior_belief self m sch) as [[post pm]|[]] eqn:E;
    [eauto|].
  exfalso. apply posterior_raises_when in E.
  destruct E as (w & Hw & [Hn|Hn]).
  - destruct (Hrows w Hw) as (row & Hrow). congruence.
  - destruct (Hprior w Hw) as (p & Hp). congruence.
Qed.

Lemma accepted_scheme_has_posteriors_witness :
  covers_states negative_probability_scheme scenario_2 /\
  forall m, exists posterior pm,
    _calculate_posterior_belief scenario_2 m negative_probability_scheme
    = Ok (posterior, pm).
Proof.
  apply (accepted_scheme_has_posteriors scenario_2
           negative_probability_scheme ValidScheme).
  - vm_compute. reflexivity.
  - intros w [<-|[<-|[]]]; eexists; reflexivity.
Defined.

(** * The mock provider and the routing *)

Lemma mock_generic_is_full_revelation (sts : list key) :
  fold_left
    (fun mock_scheme state =>
       setitem mock_scheme state
         (fold_left
            (fun row s => setitem row s (if String.eqb s state then 1 else 0))
            sts []))
    sts []
  = get_full_revelation_scheme sts.
Proof.
  unfold get_full_revelation_scheme. apply fold_left_ext. intros sch w.
  f_equal. apply fold_left_ext. intros row s.
  now rewrite (String.eqb_sym s w).
Qed.

(** X13: for every list of states the scheme that [_get_mock_strategy]
    builds is accepted by [validate_llm_scheme] for that list; outside the
    two hard-coded state sets it is the scheme of
    [get_full_revelation_scheme], and on the state lists of the two
    scenarios it is that scheme too. *)
Theorem mock_strategy_is_valid (sts : list key) :
  validate_llm_scheme (_get_mock_strategy sts) sts = (true, ValidScheme) /\
  (set_eqb sts ["Good"; "Bad"] = false ->
   set_eqb sts ["High Quality"; "Medium Quality"; "Low Quality"] = false ->
   _get_mock_strategy sts = get_full_revelation_scheme sts) /\
  (forall name sim, In (name, sim) all_scenarios ->
     _get_mock_strategy (states sim) = get_full_revelation_scheme (states sim)).
Proof.
  assert (Hsym : forall xs ys, set_eqb xs ys = true -> set_eqb ys xs = true).
  { intros xs ys H. apply set_eqb_true. intros x. symmetry.
    revert x. now apply set_eqb_true. }
  split; [|split].
  - unfold _get_mock_strategy, validate_llm_scheme.
    destruct (set_eqb sts ["Good"; "Bad"]) eqn:E1.
    + unfold keys. cbn [map fst].
      destruct (set_eqb _ sts) eqn:K; [reflexivity|].
      assert (C : true = false)
        by exact (eq_trans (eq_sym (Hsym _ _ E1)) K).
      discriminate C.
    + destruct (set_eqb sts ["High Quality"; "Medium Quality"; "Low Quality"])
        eqn:E2.
      * unfold keys. cbn [map fst].
        destruct (set_eqb _ sts) eqn:K; [reflexivity|].
        assert (C : true = false)
          by exact (eq_trans (eq_sym (Hsym _ _ E2)) K).
        discriminate C.
      * rewrite mock_generic_is_full_revelation.
        apply (proj1 (full_revelation_accepted sts)).
  - intros E1 E2. unfold _get_mock_strategy. rewrite E1, E2.
    apply mock_generic_is_full_revelation.
  - intros name sim [H|[H|[]]]; injection H as <- <-; reflexivity.
Qed.

Lemma substring_all (s : string) : String.substring 0 (String.length s) s = s.
Proof.
  induction s as [|c s IH]; simpl; [reflexivity | now rewrite IH].
Qed.

(** X14: [get_llm_strategy] routes a provider name to the Poe branch
    exactly when the name is "poe-" followed by a model name, and the model
    name it passes on, [provider[4:]], is that rest of the name. *)
Theorem poe_route_round_trip (provider model_name : string) :
  route_provider provider = Poe model_name <->
  provider = String.append "poe-" model_name.
Proof.
  split.
  - unfold route_provider.
    destruct (String.eqb provider "openai"); [discriminate|].
    destruct (String.eqb provider "mock"); [discriminate|].
    destruct (String.prefix "poe-" provider) eqn:E; [|discriminate].
    intros H. injection H as <-.
    destruct provider as [|c1 [|c2 [|c3 [|c4 rest]]]]; simpl in E;
      try discriminate;
      repeat match type of E with
             | (if ?d then _ else _) = true => destruct d; [subst|discriminate]
             end; try discriminate.
    simpl. rewrite Nat.sub_0_r, substring_all. reflexivity.
  - intros ->. unfold route_provider. simpl.
    assert (P : String.prefix "" model_name = true)
      by (destruct model_name; reflexivity).
    rewrite P, Nat.sub_0_r, substring_all. reflexivity.
Qed.

(** * The hard-coded optimum and the metrics *)

(** X15: for each scenario of [all_scenarios],
    [calculate_theoretical_optimum] returns a scheme that
    [validate_llm_scheme] accepts for the scenario's states and that the
    simulator evaluates to exactly the utility returned with it, in every
    iteration order of the signals; that utility compares above zero.  For
    any other scenario name it returns no scheme and minus infinity. *)
Theorem theoretical_optimum_matches_simulator :
  (forall name sim, In (name, sim) all_scenarios ->
     exists sch u_opt,
       calculate_theoretical_optimum name (states sim) = (Some sch, u_opt) /\
       validate_llm_scheme sch (states sim) = (true, ValidScheme) /\
       (forall signals, Permutation (signal_set sch) signals ->
          calculate_over sim signals sch = Ok u_opt) /\
       (0 <? u_opt) = true) /\
  (forall name sts,
     name <> "SimpleBinaryGame" -> name <> "QualityControl" ->
     calculate_theoretical_optimum name sts = (None, neg_infinity)).
Proof.
  split.
  - intros name sim [H|[H|[]]]; injection H as <- <-;
      eexists; eexists; (split; [reflexivity|]);
      (split; [vm_compute; reflexivity|]);
      (split; [|vm_compute; reflexivity]); intros signals Hp.
    + match type of Hp with
      | Permutation ?l _ => change l with ["SignalA"; "SignalB"] in Hp
      end.
      apply Permutation_length_2_inv in Hp.
      destruct Hp as [->| ->]; vm_compute; reflexivity.
    + match type of Hp with
      | Permutation ?l _ => change l with ["NoSignal"] in Hp
      end.
      apply Permutation_length_1_inv in Hp. subst. vm_compute. reflexivity.
  - intros name sts H1 H2. unfold calculate_theoretical_optimum.
    destruct (String.eqb_spec name "SimpleBinaryGame"); [contradiction|].
    destruct (String.eqb_spec name "QualityControl"); [contradiction|].
    reflexivity.
Qed.

Lemma positive_finite (d : float) :
  (0 <? d) = true -> is_finite d = true ->
  exists m e, Prim2SF d = S754_finite false m e.
Proof.
  intros Hpos Hfin. apply positive_spec in Hpos.
  destruct Hpos as [H|H]; [exact H|].
  apply is_finite_spec in Hfin.
  destruct Hfin as [(s & Hz)|(s & m & e & Hf)]; congruence.
Qed.

(** X16: the anchors of the two metrics of a run.  With a finite optimum
    above zero, a run that attains the optimum has optimality gap exactly
    0.0; when moreover the optimum exceeds the worst baseline by a finite
    amount, that run has relative performance level exactly 1.0, and a run
    that only attains a finite worst baseline has level exactly 0.0. *)
Theorem metrics_anchors (u_opt worst : float) :
  is_finite u_opt = true -> (0 <? u_opt) = true ->
  optimality_gap_of u_opt u_opt = Some 0 /\
  ((0 <? u_opt - worst) = true -> is_finite (u_opt - worst) = true ->
   rpl_of u_opt worst u_opt = Some 1) /\
  ((0 <? u_opt - worst) = true -> is_finite worst = true ->
   rpl_of u_opt worst worst = Some 0).
Proof.
  intros Hfin Hpos. split; [|split].
  - unfold optimality_gap_of. rewrite Hpos, (sub_same u_opt Hfin).
    now rewrite (zero_div_positive u_opt Hpos).
  - intros Hd Hdfin. unfold rpl_of. cbv zeta. rewrite Hd.
    destruct (positive_finite _ Hd Hdfin) as (m & e & Hsf).
    now rewrite (div_same _ false m e Hsf).
  - intros Hd Hw. unfold rpl_of. cbv zeta. rewrite Hd, (sub_same worst Hw).
    now rewrite (zero_div_positive _ Hd).
Qed.

Lemma metrics_anchors_witness :
  optimality_gap_of 1 1 = Some 0 /\
  ((0 <? 1 - 0.5) = true -> is_finite (1 - 0.5) = true ->
   rpl_of 1 0.5 1 = Some 1) /\
  ((0 <? 1 - 0.5) = true -> is_finite 0.5 = true ->
   rpl_of 1 0.5 0.5 = Some 0).
Proof.
  apply (metrics_anchors 1 0.5); reflexivity.
Defined.

Lemma neg_infinity_minus (w : float) : (0 <? neg_infinity - w) = false.
Proof.
  rewrite FloatAxioms.ltb_spec, FloatAxioms.sub_spec.
  change (Prim2SF 0) with (S754_zero false).
  change (Prim2SF neg_infinity) with (S754_infinity true).
  destruct (Prim2SF w) as [s|[]| |s m e]; reflexivity.
Qed.

(** X17: for a scenario without a hard-coded optimum the ceiling is minus
    infinity and neither metric is ever computed: whatever the model, the
    worst baseline and the scheme of the run, valid or not, the row of the
    run has no optimality gap and no relative performance level. *)
Theorem no_optimum_no_metrics (name : string) (sts : list key) :
  name <> "SimpleBinaryGame" -> name <> "QualityControl" ->
  forall sim worst parsed row,
    run_once sim (snd (calculate_theoretical_optimum name sts)) worst parsed
    = Ok row ->
    optimality_gap row = None /\ rpl row = None.
Proof.
  intros H1 H2 sim worst parsed row.
  unfold calculate_theoretical_optimum.
  destruct (String.eqb_spec name "SimpleBinaryGame"); [contradiction|].
  destruct (String.eqb_spec name "QualityControl"); [contradiction|].
  cbn [snd]. unfold run_once.
  destruct (get_llm_strategy_parsed parsed (states sim)) as [[sch|] []];
    try (intros H; injection H as <-; split; reflexivity).
  destruct (calculate_sender_expected_utility sim sch) as [u|e]; simpl;
    [|discriminate].
  intros H. injection H as <-. simpl.
  unfold optimality_gap_of, rpl_of. cbv zeta.
  now rewrite neg_infinity_minus.
Qed.

Lemma no_optimum_no_metrics_witness :
  run_once scenario_2 (snd (calculate_theoretical_optimum "Auction" [])) 0.5
    no_revelation_2
  = Ok {| u_llm := Some 1; optimality_gap := None; rpl := None;
          is_valid_scheme := true |} /\
  None = None :> option float /\ None = None :> option float.
Proof.
  assert (H : run_once scenario_2
                (snd (calculate_theoretical_optimum "Auction" [])) 0.5
                no_revelation_2
              = Ok {| u_llm := Some 1; optimality_gap := None; rpl := None;
                      is_valid_scheme := true |})
    by (vm_compute; reflexivity).
  split; [exact H|].
  exact (no_optimum_no_metrics "Auction" []
           ltac:(discriminate) ltac:(discriminate)
           scenario_2 0.5 no_revelation_2 _ H).
Defined.

(** * The value of the two baselines *)

(** X18: for a model whose states are listed once each, the fully
    revealing scheme is worth to the sender the direct sum
    [Σ_w prior[w] * u_s[a*(w)][w]], where [a*(w)] is the receiver's answer
    to the signal that names [w], in whatever order the signals are iterated;
    this holds as soon as every signal has an answer whose sender utilities
    are finite and are not the negative zero. *)
Theorem full_revelation_value (self : BayesianGameSimulator)
  (answer : key -> key) (signals : list key) :
  NoDup (states self) -> Permutation (states self) signals ->
  (forall m, In m (states self) ->
     best_response self (get_full_revelation_scheme (states self)) m
     = Ok (Some (answer m))) ->
  (forall m w, In m (states self) -> In w (states self) ->
     exists urow u,
       get (u_s self) (answer m) = Some urow /\ get urow w = Some u /\
       is_finite u = true /\ ~ is_neg_zero u) ->
  calculate_over self signals (get_full_revelation_scheme (states self)) =
  sigma (states self)
    (fun w =>
       urow <- getitem (u_s self) (answer w) ;;
       u <- getitem urow w ;;
       p <- getitem (prior self) w ;;
       Ok (p * u)).
Proof.
  intros Hnd Hperm Hans Hus.
  rewrite calculate_over_sender_total. unfold sender_total, sigma.
  apply sum_from_ext. intros w Hw.
  destruct (Hus w w Hw Hw) as (urow & u & Hurow & Hu & Hfin & Hnn).
  assert (Hsum : sender_state_sum self
                   (get_full_revelation_scheme (states self)) signals w
                 = Ok u).
  { unfold sender_state_sum, sigma.
    rewrite (sum_from_point _ w u Hnn signals).
    - assert (Hin : In w signals) by (now apply (Permutation_in _ Hperm)).
      apply mem_In in Hin. now rewrite Hin.
    - now apply (Permutation_NoDup Hperm).
    - intros m Hm Hne.
      assert (Hm' : In m (states self))
        by (now apply (Permutation_in _ (Permutation_sym Hperm))).
      destruct (full_revelation_entry (states self) w m Hw Hm')
        as (row & Hrow & Hval).
      destruct (Hus m w Hm' Hw) as (urow' & u' & Hurow' & Hu' & Hfin' & _).
      exists (0 * u'). unfold getitem at 1. rewrite Hrow. simpl.
      rewrite (Hans m Hm'). simpl. unfold getitem. rewrite Hurow'. simpl.
      rewrite Hu'. simpl. rewrite Hval.
      destruct (String.eqb_spec w m) as [->|_]; [contradiction|].
      split; [reflexivity | now apply mul_zero_finite].
    - intros _.
      destruct (full_revelation_entry (states self) w w Hw Hw)
        as (row & Hrow & Hval).
      unfold getitem at 1. rewrite Hrow. simpl.
      rewrite (Hans w Hw). simpl. unfold getitem. rewrite Hurow. simpl.
      rewrite Hu. simpl. rewrite Hval, String.eqb_refl, mul_1_l.
      reflexivity. }
  rewrite Hsum. simpl. unfold getitem at 2 3. rewrite Hurow. simpl.
  rewrite Hu. reflexivity.
Qed.

Lemma full_revelation_value_witness :
  calculate_over scenario_2 ["Bad"; "Good"]
    (get_full_revelation_scheme (states scenario_2)) =
  sigma (states scenario_2)
    (fun w =>
       urow <- getitem (u_s scenario_2)
                 (if String.eqb w "Good" then "Accept" else "Reject") ;;
       u <- getitem urow w ;;
       p <- getitem (prior scenario_2) w ;;
       Ok (p * u)).
Proof.
  apply (full_revelation_value scenario_2
           (fun w => if String.eqb w "Good" then "Accept" else "Reject")
           ["Bad"; "Good"]).
  - repeat constructor; simpl; intuition discriminate.
  - apply perm_swap.
  - intros m [<-|[<-|[]]]; vm_compute; reflexivity.
  - intros m w [<-|[<-|[]]] [<-|[<-|[]]]; eexists; eexists;
      (split; [reflexivity|]); (split; [reflexivity|]);
      (split; [reflexivity|]); unfold is_neg_zero; vm_compute; discriminate.
Defined.

Lemma no_revelation_signal_set (sts : list key) :
  sts <> [] -> signal_set (get_no_revelation_scheme sts) = [single_signal].
Proof.
  intros Hne. rewrite no_revelation_map. unfold signal_set.
  rewrite values_map.
  destruct (set_update [] sts) as [|d D] eqn:ED.
  - destruct sts as [|x sts']; [contradiction|].
    assert (Hx : In x (set_update [] (x :: sts')))
      by (apply set_update_nil_In; now left).
    rewrite ED in Hx. destruct Hx.
  - simpl. clear ED. induction D as [|d' D IH]; simpl; [reflexivity|].
    exact IH.
Qed.

(** X19: for a model with at least one state, the pooling scheme is worth
    to the sender [Σ_w prior[w] * u_s[a][w]], where [a] is the receiver's one
    answer to the pooling signal, as soon as that answer has sender
    utilities that are not the negative zero. *)
Theorem no_revelation_value (self : BayesianGameSimulator) (a : key) :
  states self <> [] ->
  best_response self (get_no_revelation_scheme (states self)) single_signal
  = Ok (Some a) ->
  (forall w, In w (states self) ->
     exists urow u,
       get (u_s self) a = Some urow /\ get urow w = Some u /\
       ~ is_neg_zero u) ->
  calculate_sender_expected_utility self
    (get_no_revelation_scheme (states self)) =
  sigma (states self)
    (fun w =>
       urow <- getitem (u_s self) a ;;
       u <- getitem urow w ;;
       p <- getitem (prior self) w ;;
       Ok (p * u)).
Proof.
  intros Hne Hans Hus. unfold calculate_sender_expected_utility.
  rewrite (no_revelation_signal_set _ Hne), calculate_over_sender_total.
  unfold sender_total, sigma. apply sum_from_ext. intros w Hw.
  destruct (Hus w Hw) as (urow & u & Hurow & Hu & Hnn).
  unfold sender_state_sum, sigma. simpl.
  unfold getitem at 1. rewrite (no_revelation_row _ _ Hw). simpl.
  rewrite Hans. simpl. unfold getitem. rewrite Hurow. simpl. rewrite Hu.
  simpl. unfold get_default. simpl.
  now rewrite mul_1_l, (add_zero_l u Hnn).
Qed.

Lemma no_revelation_value_witness :
  calculate_sender_expected_utility scenario_2
    (get_no_revelation_scheme (states scenario_2)) =
  sigma (states scenario_2)
    (fun w =>
       urow <- getitem (u_s scenario_2) "Accept" ;;
       u <- getitem urow w ;;
       p <- getitem (prior scenario_2) w ;;
       Ok (p * u)).
Proof.
  apply (no_revelation_value scenario_2 "Accept").
  - discriminate.
  - vm_compute. reflexivity.
  - intros w [<-|[<-|[]]]; eexists; eexists;
      (split; [reflexivity|]); (split; [reflexivity|]);
      unfold is_neg_zero; vm_compute; discriminate.
Defined.

(** * The worst baseline *)

Lemma SFcompare_swap (x y : spec_float) :
  SFcompare y x = option_map CompOpp (SFcompare x y).
Proof.
  destruct x as [sx|sx| |sx mx ex], y as [sy|sy| |sy my ey];
    try (destruct sx; try destruct sy; reflexivity);
    try (destruct sy; reflexivity); try reflexivity.
  simpl. rewrite (Z.compare_antisym ex ey).
  change (Pos.compare_cont Eq mx my) with (Pos.compare mx my).
  change (Pos.compare_cont Eq my mx) with (Pos.compare my mx).
  rewrite (Pos.compare_antisym mx my).
  destruct sx, sy; simpl; try reflexivity;
    destruct (ex ?= ey)%Z; simpl; try reflexivity;
    destruct (mx ?= my)%positive; reflexivity.
Qed.

Lemma SFcompare_refl (x : spec_float) :
  x <> S754_nan -> SFcompare x x = Some Eq.
Proof.
  destruct x as [s|s| |s m e]; intros H.
  - reflexivity.
  - now destruct s.
  - contradiction.
  - apply SFcompare_refl_finite.
Qed.

Lemma leb_refl (x : float) : Prim2SF x <> S754_nan -> (x <=? x) = true.
Proof.
  intros H. rewrite FloatAxioms.leb_spec. unfold SFleb.
  now rewrite (SFcompare_refl _ H).
Qed.

Lemma ltb_leb (x y : float) : (x <? y) = true -> (x <=? y) = true.
Proof.
  rewrite FloatAxioms.ltb_spec, FloatAxioms.leb_spec. unfold SFltb, SFleb.
  now destruct (SFcompare (Prim2SF x) (Prim2SF y)) as [[]|].
Qed.

Lemma not_ltb_leb (x y : float) :
  Prim2SF x <> S754_nan -> Prim2SF y <> S754_nan ->
  (y <? x) = false -> (x <=? y) = true.
Proof.
  rewrite FloatAxioms.ltb_spec, FloatAxioms.leb_spec. unfold SFltb, SFleb.
  intros Hx Hy. rewrite (SFcompare_swap (Prim2SF x) (Prim2SF y)).
  destruct (SFcompare (Prim2SF x) (Prim2SF y)) as [[]|] eqn:E; simpl;
    try reflexivity; try discriminate.
  intros _. destruct (Prim2SF x) as [sx|sx| |sx mx ex];
    destruct (Prim2SF y) as [sy|sy| |sy my ey]; try contradiction;
    discriminate E.
Qed.

Lemma py_min_lower_bound (a b : float) :
  Prim2SF a <> S754_nan -> Prim2SF b <> S754_nan ->
  (py_min a b <=? a) = true /\ (py_min a b <=? b) = true.
Proof.
  intros Ha Hb. unfold py_min. destruct (b <? a) eqn:E.
  - split; [now apply ltb_leb | now apply leb_refl].
  - split; [now apply leb_refl | now apply not_ltb_leb].
Qed.

(** X20: the worst baseline that [run_experiment] keeps is one of the two
    baseline values, the fully revealing one on a tie, and it is at most each
    of them whenever neither is a NaN; when the fully revealing value is a
    NaN it is that NaN. *)
Theorem worst_baseline_is_lower_bound (sim : BayesianGameSimulator)
  (u_full_rev u_no_rev worst : float) :
  baseline_utilities sim = Ok (u_full_rev, u_no_rev, worst) ->
  calculate_sender_expected_utility sim
    (get_full_revelation_scheme (states sim)) = Ok u_full_rev /\
  calculate_sender_expected_utility sim
    (get_no_revelation_scheme (states sim)) = Ok u_no_rev /\
  (worst = u_full_rev \/ worst = u_no_rev) /\
  ((u_no_rev <? u_full_rev) = false -> worst = u_full_rev) /\
  (Prim2SF u_full_rev <> S754_nan -> Prim2SF u_no_rev <> S754_nan ->
   (worst <=? u_full_rev) = true /\ (worst <=? u_no_rev) = true) /\
  (Prim2SF u_full_rev = S754_nan -> worst = u_full_rev).
Proof.
  unfold baseline_utilities. intros H.
  destruct (calculate_sender_expected_utility sim
              (get_full_revelation_scheme (states sim))) as [f|e];
    simpl in H; [|discriminate].
  destruct (calculate_sender_expected_utility sim
              (get_no_revelation_scheme (states sim))) as [n|e];
    simpl in H; [|discriminate].
  injection H as <- <- <-.
  repeat split.
  - unfold py_min. destruct (n <? f); auto.
  - unfold py_min. now intros ->.
  - now apply py_min_lower_bound.
  - now apply py_min_lower_bound.
  - intros Hnan. unfold py_min. rewrite FloatAxioms.ltb_spec, Hnan.
    unfold SFltb. now destruct (Prim2SF n) as [[]|[]| |[] m e].
Qed.

Lemma worst_baseline_is_lower_bound_witness :
  (0.5 <=? 0.5) = true /\ (0.5 <=? 1) = true.
Proof.
  refine (proj1 (proj2 (proj2 (proj2 (proj2
            (worst_baseline_is_lower_bound scenario_2 0.5 1 0.5 _))))) _ _).
  - vm_compute. reflexivity.
  - vm_compute. discriminate.
  - vm_compute. discriminate.
Defined.

(** * A scheme without signals *)

Lemma mul_finite_zero (p : float) : is_finite p = true -> is_zero (p * 0).
Proof.
  intros H. apply is_finite_spec in H. unfold is_zero.
  rewrite FloatAxioms.mul_spec. change (Prim2SF 0) with (S754_zero false).
  destruct H as [(s & ->)|(s & m & e & ->)]; simpl; eauto.
Qed.

Lemma sum_from_zeros (term : key -> result float) (ws : list key) :
  (forall w, In w ws -> exists z, term w = Ok z /\ is_zero z) ->
  sum_from 0 ws term = Ok 0.
Proof.
  induction ws as [|w ws IH]; intros H; simpl; [reflexivity|].
  destruct (H w (or_introl eq_refl)) as (z & -> & Hz). simpl.
  rewrite (add_zero_r 0 z Hz) by (unfold is_neg_zero; vm_compute; discriminate).
  apply IH. intros v Hv. apply H. now right.
Qed.

(** X21: a scheme that names no signal at all (no rows, or only empty rows)
    is evaluated without any row being read: whenever the prior gives every
    state a finite mass the evaluator returns exactly 0.0, whether or not the
    scheme has a row for each state. *)
Theorem scheme_without_signals_is_worth_zero (self : BayesianGameSimulator)
  (sch : scheme) :
  signal_set sch = [] ->
  (forall w, In w (states self) ->
     exists p, get (prior self) w = Some p /\ is_finite p = true) ->
  calculate_sender_expected_utility self sch = Ok 0.
Proof.
  intros Hsig Hprior. unfold calculate_sender_expected_utility.
  rewrite Hsig, calculate_over_sender_total. unfold sender_total, sigma.
  apply sum_from_zeros. intros w Hw.
  destruct (Hprior w Hw) as (p & Hp & Hfin).
  exists (p * 0). unfold sender_state_sum, sigma. simpl.
  unfold getitem. rewrite Hp. simpl. split; [reflexivity|].
  now apply mul_finite_zero.
Qed.

Lemma scheme_without_signals_is_worth_zero_witness :
  calculate_sender_expected_utility scenario_2 [("Good", [])] = Ok 0.
Proof.
  apply (scheme_without_signals_is_worth_zero scenario_2 [("Good", [])]).
  - reflexivity.
  - intros w [<-|[<-|[]]]; eexists; split; reflexivity.
Defined.
